(** * SD-WingetDeploy: the install / upgrade orchestrator of [winget.py]

    A shallow embedding of the backend half of [winget.py]:
    [run_winget_ps_setup], [run_winget_ps_install], [_parse_version],
    [get_winget_state] and the worker of [_on_upgrade_all], together with
    the Python string and regular-expression primitives they call.

    Text is modelled as [string]; a character is a code point below 256.
    The outside world (the script file, the PowerShell child process, the
    log file) is an explicit environment record, and everything a function
    does to that world is returned as a list of effects next to its
    result. *)

From Stdlib Require Import Ascii ZArith Lia.
From stdpp Require Import base list strings pretty gmap sorting.

Local Open Scope string_scope.
Local Open Scope list_scope.

(** ** Python [str] primitives *)
Module Text.

(** [str.isspace] on one character, which is also the class [\s] of the
    [re] module for [str] patterns. *)
Definition isspace (c : ascii) : bool :=
  match c with
  | "009" | "010" | "011" | "012" | "013"
  | "028" | "029" | "030" | "031" | " "
  | "133" | "160" => true
  | _ => false
  end%char.

(** [\d] of the [re] module, and the digits [int] accepts. *)
Definition isdigit (c : ascii) : bool :=
  match Ascii.is_nat c with Some _ => true | None => false end.

Definition digit_val (c : ascii) : N :=
  match Ascii.is_nat c with Some d => N.of_nat d | None => 0%N end.

Definition is_empty (s : string) : bool :=
  match s with EmptyString => true | String _ _ => false end.

(** Python truthiness of a list. *)
Definition nonempty {A} (l : list A) : bool :=
  match l with [] => false | _ :: _ => true end.

(** [s.lstrip()], [s.rstrip()], [s.strip()]. *)
Fixpoint lstrip (s : string) : string :=
  match s with
  | EmptyString => EmptyString
  | String c r => if isspace c then lstrip r else s
  end.

Fixpoint rstrip (s : string) : string :=
  match s with
  | EmptyString => EmptyString
  | String c r =>
      let r' := rstrip r in
      if is_empty r' && isspace c then EmptyString else String c r'
  end.

Definition strip (s : string) : string := rstrip (lstrip s).

(** [s.rstrip("\r\n")]: trailing carriage returns and line feeds go. *)
Definition is_crlf (c : ascii) : bool :=
  match c with "010" | "013" => true | _ => false end%char.

Fixpoint rstrip_crlf (s : string) : string :=
  match s with
  | EmptyString => EmptyString
  | String c r =>
      let r' := rstrip_crlf r in
      if is_empty r' && is_crlf c then EmptyString else String c r'
  end.

(** [s.startswith(p)], returning what follows the prefix, which is the
    slice [s[len(p):]] the callers take next. *)
Fixpoint strip_prefix (p s : string) : option string :=
  match p, s with
  | EmptyString, _ => Some s
  | String a p', String b s' =>
      if Ascii.eqb a b then strip_prefix p' s' else None
  | String _ _, EmptyString => None
  end.

(** [s.split(sep)] for a one-character separator: never the empty list. *)
Fixpoint split (sep : ascii) (s : string) : list string :=
  match s with
  | EmptyString => [EmptyString]
  | String c r =>
      if Ascii.eqb c sep then EmptyString :: split sep r
      else match split sep r with
           | [] => [String c EmptyString]
           | f :: fs => String c f :: fs
           end
  end.

(** [sep.join(parts)]. *)
Fixpoint join (sep : string) (parts : list string) : string :=
  match parts with
  | [] => EmptyString
  | [p] => p
  | p :: ps => p +:+ sep +:+ join sep ps
  end.

(** Line boundaries of [str.splitlines] among the code points below 256. *)
Definition is_linebreak (c : ascii) : bool :=
  match c with
  | "010" | "011" | "012" | "013" | "028" | "029" | "030" | "133" => true
  | _ => false
  end%char.

(** [s.splitlines()]: [cur] is the line being read, reversed; a carriage
    return directly followed by a line feed is one boundary, and a
    boundary at the very end opens no further line. *)
Fixpoint splitlines_go (cur : string) (s : string) : list string :=
  match s with
  | EmptyString => if is_empty cur then [] else [String.rev cur]
  | String c r =>
      if is_linebreak c then
        match c, r with
        | "013"%char, String "010"%char r' => String.rev cur :: splitlines_go EmptyString r'
        | _, _ => String.rev cur :: splitlines_go EmptyString r
        end
      else splitlines_go (String c cur) r
  end.

Definition splitlines (s : string) : list string := splitlines_go EmptyString s.

(** [s[:n]]. *)
Fixpoint prefix_n (n : nat) (s : string) : string :=
  match n, s with
  | S n', String c r => String c (prefix_n n' r)
  | _, _ => EmptyString
  end.

(** The line feed, and a line as the stream yields it. *)
Definition nl : string := String "010" EmptyString.
Definition ln (s : string) : string := s +:+ nl.

(** Whether every character is a digit; whether a line feed occurs. *)
Fixpoint all_digits (s : string) : bool :=
  match s with
  | EmptyString => true
  | String c r => isdigit c && all_digits r
  end.

Fixpoint has_lf (s : string) : bool :=
  match s with
  | EmptyString => false
  | String c r => Ascii.eqb c "010"%char || has_lf r
  end.

(** [a or b] on strings. *)
Definition str_or (a b : string) : string := if is_empty a then b else a.

(** The number a run of digits denotes, most significant digit first.
    Integers are unbounded, as in Python. *)
Fixpoint int_go (acc : N) (s : string) : N :=
  match s with
  | EmptyString => acc
  | String c r => int_go (acc * 10 + digit_val c)%N r
  end.

(** [sys.int_info.default_max_str_digits]: the interpreter converts a
    decimal text of at most this many digits and refuses a longer one.
    The program never changes the limit. *)
Definition int_max_str_digits : nat := 4300.

Definition int_accepts (s : string) : bool :=
  (String.length s <=? int_max_str_digits)%nat.

(** [int(x)] on a run of digits: [None] is the [ValueError] raised on a
    run longer than the limit. *)
Definition int_of_digits (s : string) : option N :=
  if int_accepts s then Some (int_go 0%N s) else None.

End Text.

(** ** The regular expressions of the source, as matchers *)
Module Re.
Import Text.

(** The longest run of characters [.] accepts (anything but a line
    feed) and what follows it. *)
Fixpoint dot_run (s : string) : string * string :=
  match s with
  | EmptyString => (EmptyString, EmptyString)
  | String c r =>
      if Ascii.eqb c "010"%char then (EmptyString, s)
      else let '(run, rest) := dot_run r in (String c run, rest)
  end.

(** [(.+)$] at the start of [s].  [$] holds at the end of the text or
    just before a line feed that ends it; since [.+] stops only before
    a line feed or at the end, giving characters back can never make
    [$] hold, so only the longest run is tried. *)
Definition capture_to_end (s : string) : option string :=
  let '(run, rest) := dot_run s in
  if is_empty run then None
  else match rest with
       | EmptyString => Some run
       | String _ EmptyString => Some run
       | _ => None
       end.

(** [\s*(.+)$] at the start of [s]: [\s*] is greedy, so the match that
    eats one more blank is preferred, and the matcher backtracks to
    eating none when that fails. *)
Fixpoint blanks_then_capture (s : string) : option string :=
  match s with
  | EmptyString => capture_to_end s
  | String c r =>
      if isspace c then
        match blanks_then_capture r with
        | Some g => Some g
        | None => capture_to_end s
        end
      else capture_to_end s
  end.

(** [re.compile(lit + r"\s*(.+)$").search(s)], returning [m.group(1)]:
    the leftmost position where the pattern matches wins. *)
Fixpoint search_marker (lit : string) (s : string) : option string :=
  let here :=
    match strip_prefix lit s with
    | Some rest => blanks_then_capture rest
    | None => None
    end in
  match here with
  | Some g => Some g
  | None =>
      match s with
      | EmptyString => None
      | String _ r => search_marker lit r
      end
  end.

(** The longest run of digits and what follows it. *)
Fixpoint digit_run (s : string) : string * string :=
  match s with
  | EmptyString => (EmptyString, EmptyString)
  | String c r =>
      if isdigit c then let '(run, rest) := digit_run r in (String c run, rest)
      else (EmptyString, s)
  end.

(** [(\d+)\.(\d+)\.(\d+)] at the start of [s].  After a greedy [\d+]
    the next character is no digit, so a shorter run would be followed
    by a digit and not by the dot: only the longest run is tried. *)
Definition version_at (s : string) : option (string * string * string) :=
  let '(d1, r1) := digit_run s in
  if is_empty d1 then None else
  match r1 with
  | String "."%char r1' =>
      let '(d2, r2) := digit_run r1' in
      if is_empty d2 then None else
      match r2 with
      | String "."%char r2' =>
          let '(d3, _) := digit_run r2' in
          if is_empty d3 then None else Some (d1, d2, d3)
      | _ => None
      end
  | _ => None
  end.

(** [re.search(r"(\d+)\.(\d+)\.(\d+)", s)], returning [m.groups()]. *)
Fixpoint search_version (s : string) : option (string * string * string) :=
  match version_at s with
  | Some g => Some g
  | None =>
      match s with
      | EmptyString => None
      | String _ r => search_version r
      end
  end.

(** The spec's words for the version pattern: somewhere in the text,
    three non-empty runs of digits separated by dots. *)
Definition number (s : string) : Prop := s ≠ "" ∧ all_digits s = true.

Definition contains_version (s : string) : Prop :=
  ∃ pre d1 d2 d3 post,
    s = pre +:+ d1 +:+ "." +:+ d2 +:+ "." +:+ d3 +:+ post
    ∧ number d1 ∧ number d2 ∧ number d3.

End Re.

(** ** The outside world *)

(** What a finished child process hands back: the lines its standard
    output yields when iterated (each still carrying its line end), the
    whole of its standard error, and its exit code. *)
Record process := {
  out_lines : list string;
  err_text : string;
  returncode : Z;
}.

(** [result.stdout] of [subprocess.run]: the whole captured text. *)
Definition stdout_text (p : process) : string :=
  foldr String.app EmptyString (out_lines p).

(** The environment a call runs in. [popen] answers [None] when the
    child cannot be launched (the call raises [OSError]); [log_fault]
    is [Some k] when step [k] of writing the log raises: step 0 is
    [open], step [k] the [k]-th [f.write]. *)
Record env := {
  exe_dir : string;
  ps1_path : string;
  ps1_exists : bool;
  popen : list string → option process;
  log_fault : option nat;
}.

(** The same environment with another fate for the log. *)
Definition with_log_fault (e : env) (fault : option nat) : env :=
  {| exe_dir := exe_dir e; ps1_path := ps1_path e; ps1_exists := ps1_exists e;
     popen := popen e; log_fault := fault |}.

(** The tuples handed to [on_event]. *)
Inductive event :=
  | EvLine (text : string)
  | EvStart (id : string)
  | EvOk (id : string).

(** What a call does to the world, in order. *)
Inductive effect :=
  | FxExists (path : string)
  | FxPopen (cmd : list string)
  | FxEvent (ev : event)
  | FxWrite (path : string) (content : string)
  | FxStatus (text : string).

Inductive exn :=
  | FileNotFoundError (msg : string)
  | RuntimeError (msg : string)
  | OSError
  | ValueError.

Inductive outcome (A : Type) :=
  | Returned (a : A)
  | Raised (e : exn).
Arguments Returned {A} a.
Arguments Raised {A} e.

Definition is_write (fx : effect) : bool :=
  match fx with FxWrite _ _ => true | _ => false end.
Definition writes_file (fx : list effect) : Prop :=
  ∃ path content, FxWrite path content ∈ fx.

(** ** [run_winget_ps_install] *)
Module Install.
Import Text.

Definition re_start : string → option string := Re.search_marker "Installing app via winget:".
Definition re_ok : string → option string := Re.search_marker "App installed successfully:".
Definition re_failed : string → option string := Re.search_marker "FAILED_APPS:".

(** The two lists the loop over [proc.stdout] carries. *)
Record loop_state := {
  installed : list string;
  failed_ids_from_summary : list string;
}.

Definition loop_init : loop_state :=
  {| installed := []; failed_ids_from_summary := [] |}.

(** [on_event] is [None] or a callable; [emit] is the guarded call. *)
Definition emit (on_event : bool) (ev : event) : list effect :=
  if on_event then [FxEvent ev] else [].

(** [[s.strip() for s in tail.split(",") if s.strip()]]. *)
Definition split_ids (tail : string) : list string :=
  filter (λ s, is_empty s = false) (strip <$> split ","%char tail).

(** One round of the loop: the new state and the events delivered. *)
Definition loop_body (on_event : bool) (st : loop_state) (raw : string)
  : loop_state * list effect :=
  let line := rstrip_crlf raw in
  let fx := emit on_event (EvLine line) in
  match re_start line with
  | Some g =>
      let current_id := strip g in
      (st, fx ++ emit on_event (EvStart current_id))
  | None =>
      match re_ok line with
      | Some g =>
          let ok_id := strip g in
          ({| installed := installed st ++ [ok_id];
              failed_ids_from_summary := failed_ids_from_summary st |},
           fx ++ emit on_event (EvOk ok_id))
      | None =>
          match re_failed line with
          | Some g =>
              let tail := strip g in
              ({| installed := installed st;
                  failed_ids_from_summary := split_ids tail |}, fx)
          | None => (st, fx)
          end
      end
  end.

Fixpoint loop (on_event : bool) (st : loop_state) (lines : list string)
  : loop_state * list effect :=
  match lines with
  | [] => (st, [])
  | raw :: rest =>
      let '(st1, fx1) := loop_body on_event st raw in
      let '(st2, fx2) := loop on_event st1 rest in
      (st2, fx1 ++ fx2)
  end.

Definition command (e : env) (app_ids : list string) : list string :=
  ["powershell.exe"; "-NoLogo"; "-NoProfile"; "-ExecutionPolicy"; "Bypass";
   "-File"; ps1_path e] ++ app_ids.

(** The text of the error raised when nothing was recognised. *)
Definition short_stderr (stderr : string) : list string :=
  take 10 (splitlines (str_or (strip stderr) "Unbekannter Fehler")).

Definition failure_message (stderr : string) : string :=
  "Winget-Installation ist fehlgeschlagen:" +:+ String "010" (join (String "010" "") (short_stderr stderr)).

(** What happens once the stream has closed. *)
Definition reconcile (st : loop_state) (rc : Z) (stderr : string)
  : outcome (list string * list string) :=
  let failed := if nonempty (failed_ids_from_summary st)
                then failed_ids_from_summary st else [] in
  if negb (rc =? 0)%Z && negb (nonempty failed) && negb (nonempty (installed st))
  then Raised (RuntimeError (failure_message stderr))
  else Returned (installed st, failed).

Definition run_winget_ps_install (e : env) (app_ids : list string) (on_event : bool)
  : list effect * outcome (list string * list string) :=
  if negb (nonempty app_ids) then ([], Returned ([], []))
  else if negb (ps1_exists e) then
    ([FxExists (ps1_path e)],
     Raised (FileNotFoundError ("Winget-Installscript nicht gefunden: " +:+ ps1_path e)))
  else
    let cmd := command e app_ids in
    match popen e cmd with
    | None => ([FxExists (ps1_path e); FxPopen cmd], Raised OSError)
    | Some proc =>
        let '(st, fx) := loop on_event loop_init (out_lines proc) in
        ([FxExists (ps1_path e); FxPopen cmd] ++ fx,
         reconcile st (returncode proc) (err_text proc))
    end.

(** *** The callback as a function

    [run_winget_ps_install] above takes [on_event] as absent or present,
    a callback that is present being one that returns.  Here it is any
    callable: [cb ev] is [Some exc] when the call [on_event(ev)] raises
    [exc], and nothing in the source catches that. *)
Definition callback : Type := event → option exn.

(** The guarded call [if on_event: on_event(ev)]. *)
Definition call (on_event : option callback) (ev : event) : list effect * option exn :=
  match on_event with
  | None => ([], None)
  | Some cb => ([FxEvent ev], cb ev)
  end.

(** One round of the loop: the events delivered, and the new state or
    the exception that leaves the loop. *)
Definition loop_body_cb (on_event : option callback) (st : loop_state) (raw : string)
  : list effect * outcome loop_state :=
  let line := rstrip_crlf raw in
  match call on_event (EvLine line) with
  | (fx, Some exc) => (fx, Raised exc)
  | (fx, None) =>
      match re_start line with
      | Some g =>
          let current_id := strip g in
          match call on_event (EvStart current_id) with
          | (fx', Some exc) => (fx ++ fx', Raised exc)
          | (fx', None) => (fx ++ fx', Returned st)
          end
      | None =>
          match re_ok line with
          | Some g =>
              let ok_id := strip g in
              let st' := {| installed := installed st ++ [ok_id];
                            failed_ids_from_summary := failed_ids_from_summary st |} in
              match call on_event (EvOk ok_id) with
              | (fx', Some exc) => (fx ++ fx', Raised exc)
              | (fx', None) => (fx ++ fx', Returned st')
              end
          | None =>
              match re_failed line with
              | Some g =>
                  let tail := strip g in
                  (fx, Returned {| installed := installed st;
                                   failed_ids_from_summary := split_ids tail |})
              | None => (fx, Returned st)
              end
          end
      end
  end.

Fixpoint loop_cb (on_event : option callback) (st : loop_state) (lines : list string)
  : list effect * outcome loop_state :=
  match lines with
  | [] => ([], Returned st)
  | raw :: rest =>
      match loop_body_cb on_event st raw with
      | (fx1, Raised exc) => (fx1, Raised exc)
      | (fx1, Returned st1) =>
          let '(fx2, r) := loop_cb on_event st1 rest in (fx1 ++ fx2, r)
      end
  end.

Definition run_winget_ps_install_cb (e : env) (app_ids : list string)
    (on_event : option callback)
  : list effect * outcome (list string * list string) :=
  if negb (nonempty app_ids) then ([], Returned ([], []))
  else if negb (ps1_exists e) then
    ([FxExists (ps1_path e)],
     Raised (FileNotFoundError ("Winget-Installscript nicht gefunden: " +:+ ps1_path e)))
  else
    let cmd := command e app_ids in
    match popen e cmd with
    | None => ([FxExists (ps1_path e); FxPopen cmd], Raised OSError)
    | Some proc =>
        match loop_cb on_event loop_init (out_lines proc) with
        | (fx, Raised exc) => ([FxExists (ps1_path e); FxPopen cmd] ++ fx, Raised exc)
        | (fx, Returned st) =>
            ([FxExists (ps1_path e); FxPopen cmd] ++ fx,
             reconcile st (returncode proc) (err_text proc))
        end
    end.

(** A callback that refuses the event [ok] of one id. *)
Definition refuses_ok (id : string) : callback :=
  λ ev, match ev with
        | EvOk i => if String.eqb i id then Some (RuntimeError "stop") else None
        | _ => None
        end.

(** *** Vocabulary of the marker protocol, read off the loop body *)

(** The id a line marks as installed, if the loop treats it so. *)
Definition ok_marker (raw : string) : option string :=
  let line := rstrip_crlf raw in
  match re_start line with
  | Some _ => None
  | None => strip <$> re_ok line
  end.

(** The failed list a line sets, if the loop treats it so. *)
Definition failed_marker (raw : string) : option (list string) :=
  let line := rstrip_crlf raw in
  match re_start line, re_ok line with
  | None, None => (λ g, split_ids (strip g)) <$> re_failed line
  | _, _ => None
  end.

(** The ids marked installed, in stream order. *)
Definition ok_ids (lines : list string) : list string :=
  omap ok_marker lines.

(** The list set by the last failed-list line, empty if there is none. *)
Definition last_failed (lines : list string) : list string :=
  default [] (last (omap failed_marker lines)).

(** The state the loop ends in, read off the stream. *)
Definition final_state (lines : list string) : loop_state :=
  {| installed := ok_ids lines; failed_ids_from_summary := last_failed lines |}.

(** The spec's inference: the requested ids that were not marked Ok. *)
Definition requested_not_ok (app_ids lines : list string) : list string :=
  filter (λ id, id ∉ ok_ids lines) app_ids.

(** An environment in which the script is there and the child process
    behaves as [proc] says. *)
Definition env_with (proc : process) : env :=
  {| exe_dir := "C:\Tools"; ps1_path := "C:\Tools\winget-installscript.ps1";
     ps1_exists := true; popen := λ _, Some proc; log_fault := None |}.

(** Runs used as test vectors. *)
Definition partial_run : process :=
  {| out_lines := [ln "Installing app via winget: A.App";
                   ln "App installed successfully: A.App";
                   ln "Installing app via winget: B.App"];
     err_text := ""; returncode := 1 |}.

Definition silent_failure : process :=
  {| out_lines := [ln "Installing app via winget: B.App"; ln "no marker here"];
     err_text := ln " " +:+ ln "e1" +:+ ln "e2" +:+ ln "e3" +:+ ln "e4" +:+ ln "e5"
                 +:+ ln "e6" +:+ ln "e7" +:+ ln "e8" +:+ ln "e9" +:+ ln "e10"
                 +:+ ln "e11" +:+ ln "e12";
     returncode := 1 |}.

Definition two_failed_lists : process :=
  {| out_lines := [ln "FAILED_APPS: a"; ln "FAILED_APPS: b"];
     err_text := ""; returncode := 2 |}.

Definition failed_after_ok : process :=
  {| out_lines := [ln "App installed successfully: c";
                   ln "App installed successfully: d";
                   ln "FAILED_APPS: a, b"];
     err_text := ""; returncode := 2 |}.

Definition ok_and_failed : process :=
  {| out_lines := [ln "App installed successfully: a"; ln "FAILED_APPS: a"];
     err_text := ""; returncode := 0 |}.

Definition overlap_overridden : process :=
  {| out_lines := [ln "App installed successfully: a"; ln "FAILED_APPS: a";
                   ln "FAILED_APPS: b"];
     err_text := ""; returncode := 0 |}.

End Install.

(** ** [run_winget_ps_setup] *)
Module Setup.
Import Text.

Definition command (e : env) : list string :=
  ["powershell.exe"; "-NoLogo"; "-NoProfile"; "-ExecutionPolicy"; "Bypass";
   "-File"; ps1_path e; "-SetupWinget"].

(** [EXE_DIR / "winget-setup.log"]. *)
Definition log_path (e : env) : string := exe_dir e +:+ "\winget-setup.log".

(** The seven [f.write] calls, in order. *)
Definition log_chunks (e : env) (p : process) : list string :=
  [ "Command : " +:+ join " " (command e) +:+ nl;
    "PS1     : " +:+ ps1_path e +:+ nl;
    "Return  : " +:+ pretty (returncode p) +:+ nl +:+ nl;
    "=== STDOUT ===" +:+ nl;
    stdout_text p;
    nl +:+ nl +:+ "=== STDERR ===" +:+ nl;
    err_text p ].

(** The [try] block around the log: what is in the file afterwards,
    [None] when [open] itself failed.  Whatever is raised inside is
    swallowed by [except Exception: pass]. *)
Definition write_log (fault : option nat) (chunks : list string) : option string :=
  match fault with
  | None => Some (foldr String.app EmptyString chunks)
  | Some 0 => None
  | Some (S k) => Some (foldr String.app EmptyString (take k chunks))
  end.

Definition log_effects (e : env) (p : process) : list effect :=
  match write_log (log_fault e) (log_chunks e p) with
  | Some content => [FxWrite (log_path e) content]
  | None => []
  end.

Definition error_message (e : env) (p : process) : string :=
  let stdout := strip (stdout_text p) in
  let stderr := strip (err_text p) in
  let msg := str_or stderr (str_or stdout ("Winget-Setup Fehlercode " +:+ pretty (returncode p))) in
  msg +:+ nl +:+ nl +:+ "Details siehe Log-Datei:" +:+ nl +:+ log_path e.

Definition run_winget_ps_setup (e : env) : list effect * outcome unit :=
  if negb (ps1_exists e) then
    ([FxExists (ps1_path e)],
     Raised (FileNotFoundError ("Winget-Installscript nicht gefunden: " +:+ ps1_path e)))
  else
    let cmd := command e in
    match popen e cmd with
    | None => ([FxExists (ps1_path e); FxPopen cmd], Raised OSError)
    | Some result =>
        let fx := [FxExists (ps1_path e); FxPopen cmd] ++ log_effects e result in
        if negb (returncode result =? 0)%Z
        then (fx, Raised (RuntimeError (error_message e result)))
        else (fx, Returned tt)
    end.

(** A setup run used as a test vector: the script fails with code 3. *)
Definition failed_setup : process :=
  {| out_lines := [ln "Checking winget"; ln "Repair failed"];
     err_text := ln "Access denied"; returncode := 3 |}.

End Setup.

(** ** Dependency checks: [_parse_version] and [get_winget_state] *)
Module Probe.
Import Text.

Definition MIN_WINGET_VERSION : list N := [1; 12; 0]%N.

Inductive WingetState := MISSING | OUTDATED | OK.

(** [None] inside [Returned] is the [None] of the source; the call
    raises when [int] refuses one of the three groups. *)
Definition _parse_version (text : string) : outcome (option (list N)) :=
  match Re.search_version text with
  | None => Returned None
  | Some (d1, d2, d3) =>
      match int_of_digits d1, int_of_digits d2, int_of_digits d3 with
      | Some a, Some b, Some c => Returned (Some [a; b; c])
      | _, _, _ => Raised ValueError
      end
  end.

(** Whether [int] accepts each group of the first match in [text]. *)
Definition digits_accepted (text : string) : bool :=
  match Re.search_version text with
  | None => true
  | Some (d1, d2, d3) => int_accepts d1 && int_accepts d2 && int_accepts d3
  end.

(** Python's [<] on tuples of integers: the first place where the two
    differ decides, and a proper prefix is smaller. *)
Fixpoint tuple_lt (a b : list N) : bool :=
  match a, b with
  | [], [] => false
  | [], _ :: _ => true
  | _ :: _, [] => false
  | x :: a', y :: b' => if (x =? y)%N then tuple_lt a' b' else (x <? y)%N
  end.

(** [run] is what [_run_silent(["winget", "--version"], timeout=5)]
    gave, [None] when it raised (no such program, or the timeout).  The
    [try] of the source covers that call only: an exception of
    [_parse_version] leaves the function.  [str(x)] of a parsed number
    stays within the limit of [int]: it has no more digits than the run
    the number was read from. *)
Definition get_winget_state (run : option process)
  : outcome (WingetState * option string) :=
  match run with
  | None => Returned (MISSING, None)
  | Some result =>
      if negb (returncode result =? 0)%Z then Returned (MISSING, None)
      else
        let txt := strip (stdout_text result +:+ err_text result) in
        match _parse_version txt with
        | Raised exc => Raised exc
        | Returned ver_tuple =>
            let ver_str :=
              match ver_tuple with
              | Some t => Some (join "." (pretty <$> t))
              | None => if is_empty txt then None else Some txt
              end in
            match ver_tuple with
            | None => Returned (OK, ver_str)
            | Some t =>
                if tuple_lt t MIN_WINGET_VERSION then Returned (OUTDATED, ver_str)
                else Returned (OK, ver_str)
            end
        end
  end.

(** A finished [winget --version] that printed [out]. *)
Definition printed (out : string) : option process :=
  Some {| out_lines := [out]; err_text := ""; returncode := 0 |}.

End Probe.

(** ** The worker of [_on_upgrade_all] *)
Module Upgrade.
Import Text.

Definition command (e : env) : list string :=
  ["powershell.exe"; "-NoLogo"; "-NoProfile"; "-ExecutionPolicy"; "Bypass";
   "-File"; ps1_path e; "-UpgradeAll"].

(** The first loop: keep the non-empty lines, show each in the status
    label cut to 140 characters. *)
Fixpoint collect (raws : list string) : list string * list effect :=
  match raws with
  | [] => ([], [])
  | raw :: rest =>
      let line := rstrip_crlf raw in
      let '(ls, fx) := collect rest in
      if is_empty line then (ls, fx)
      else (line :: ls, FxStatus (prefix_n 140 line) :: fx)
  end.

(** One record of the summary: name, id, current and available version. *)
Definition record : Type := string * string * string * string.

Record summary := {
  updated : list record;
  not_updated : list record;
  inside : bool;
  had_none : bool;
}.

Definition summary_init : summary :=
  {| updated := []; not_updated := []; inside := false; had_none := false |}.

(** [name, appid, cur, avail = (parts + ["", "", "", ""])[:4]] after
    [parts = [p.strip() for p in payload.split("|")]]. *)
Definition parse_record (payload : string) : record :=
  let parts := strip <$> split "|"%char payload in
  match take 4 (parts ++ [""; ""; ""; ""]) with
  | [name; appid; cur; avail] => (name, appid, cur, avail)
  | _ => ("", "", "", "")
  end.

(** One round of the second loop. *)
Definition summary_step (st : summary) (line : string) : summary :=
  if String.eqb line "UPGRADE_SUMMARY_BEGIN" then
    {| updated := updated st; not_updated := not_updated st;
       inside := true; had_none := had_none st |}
  else if String.eqb line "UPGRADE_SUMMARY_END" then
    {| updated := updated st; not_updated := not_updated st;
       inside := false; had_none := had_none st |}
  else if negb (inside st) then st
  else if String.eqb line "UPGRADE_NONE" then
    {| updated := updated st; not_updated := not_updated st;
       inside := inside st; had_none := true |}
  else
    match strip_prefix "UPDATED_APP: " line with
    | Some payload =>
        {| updated := updated st ++ [parse_record payload];
           not_updated := not_updated st;
           inside := inside st; had_none := had_none st |}
    | None =>
        match strip_prefix "NOT_UPDATED_APP: " line with
        | Some payload =>
            {| updated := updated st;
               not_updated := not_updated st ++ [parse_record payload];
               inside := inside st; had_none := had_none st |}
        | None => st
        end
    end.

Definition parse_summary (stdout_lines : list string) : summary :=
  foldl summary_step summary_init stdout_lines.

(** What [finish] puts in the status label. *)
Inductive report :=
  | NothingToUpgrade
  | Counted (clean : bool) (total_updated total : nat)
  | NoSummary (rc : Z).

Definition finish (st : summary) (rc : Z) : report :=
  let total_updated := length (updated st) in
  let total := (total_updated + length (not_updated st))%nat in
  if had_none st && (total =? 0)%nat then NothingToUpgrade
  else if (0 <? total)%nat then Counted (rc =? 0)%Z total_updated total
  else NoSummary rc.

Definition worker (e : env) : list effect * outcome (summary * report) :=
  let cmd := command e in
  match popen e cmd with
  | None => ([FxPopen cmd], Raised OSError)
  | Some proc =>
      let '(stdout_lines, fx) := collect (out_lines proc) in
      let st := parse_summary stdout_lines in
      (FxPopen cmd :: fx, Returned (st, finish st (returncode proc)))
  end.

(** The record as the spec words it: the first four stripped fields of
    the payload, a missing one being the empty string. *)
Definition record_fields (payload : string) : record :=
  let parts := strip <$> split "|"%char payload in
  (nth 0 parts "", nth 1 parts "", nth 2 parts "", nth 3 parts "").

(** A line of the summary block: an updated or a not-updated entry. *)
Definition entry_line (entry : bool * string) : string :=
  if entry.1 then "UPDATED_APP: " +:+ entry.2 else "NOT_UPDATED_APP: " +:+ entry.2.

(** Streams used as test vectors. *)
Definition first_block : list string :=
  [ln "UPGRADE_SUMMARY_BEGIN"; ln "UPDATED_APP: a|b|1|2"; ln "UPGRADE_SUMMARY_END"].
Definition outside_noise : list string :=
  [ln "UPDATED_APP: x|y|3|4"; ln "NOT_UPDATED_APP: q"; ln "UPGRADE_NONE";
   ln "UPGRADE_SUMMARY_END"].
Definition second_block : list string :=
  [ln "UPGRADE_SUMMARY_BEGIN"; ln "NOT_UPDATED_APP: c|d"; ln "UPGRADE_SUMMARY_END"].

(** The summary the worker reads off a stream of raw lines. *)
Definition summary_of (raws : list string) : summary :=
  parse_summary (fst (collect raws)).

(** A run whose block holds a note, three entries and the closing
    sentinel, with an entry outside the block after it. *)
Definition block_head : list string :=
  [ln "Upgrading"; ln "UPGRADE_SUMMARY_BEGIN"; ln "2 of 3 upgraded"].
Definition block_entries : list string :=
  [ln "UPDATED_APP:  Mozilla Firefox | Mozilla.Firefox |120.0";
   ln "NOT_UPDATED_APP: Git|Git.Git|2.43|2.44|pinned";
   ln "UPDATED_APP: 7-Zip|7zip.7zip|23.01|24.00"].
Definition block_tail : list string :=
  [ln "UPGRADE_SUMMARY_END"; ln "UPDATED_APP: x|y|3|4"].
Definition block_run : process :=
  {| out_lines := block_head ++ block_entries ++ block_tail;
     err_text := ""; returncode := 0 |}.

End Upgrade.

(** ** More [str] primitives *)
Module TextMore.

(** [c.lower()] for a code point below 256: the letters A to Z and the
    accented capitals 192 to 222, the multiplication sign 215 apart,
    move up by 32; everything else stays. *)
Definition lower_char (c : ascii) : ascii :=
  let n := N_of_ascii c in
  if ((65 <=? n) && (n <=? 90) || (192 <=? n) && (n <=? 222) && negb (n =? 215))%N
  then ascii_of_N (n + 32) else c.

(** [s.lower()]. *)
Fixpoint lower (s : string) : string :=
  match s with
  | EmptyString => EmptyString
  | String c r => String (lower_char c) (lower r)
  end.

(** [sub in s]: [sub] occurs in [s] as a run of consecutive characters. *)
Fixpoint contains (sub s : string) : bool :=
  match Text.strip_prefix sub s with
  | Some _ => true
  | None =>
      match s with
      | EmptyString => false
      | String _ r => contains sub r
      end
  end.

End TextMore.

(** ** The dependency checks beside [get_winget_state] *)
Module UiState.
Inductive t := PENDING | RUNNING | OK | FAIL | SKIP.
End UiState.

Module DepKey.
Inductive t := WINGET | DESKTOP_APP_INSTALLER | POWERSHELL.
End DepKey.

Module Deps.
Import Text TextMore.

(** What [_run_silent] gives for a command: [None] when it raises (the
    program cannot be started, or the timeout passes). *)
Definition runner : Type := list string → option process.


Definition appinstaller_command : list string :=
  ["powershell"; "-NoLogo"; "-NoProfile"; "-Command";
   "(Get-AppxPackage -Name Microsoft.DesktopAppInstaller | "
   +:+ "Select-Object -First 1 -ExpandProperty Version | "
   +:+ "ForEach-Object { $_.ToString() })"].

Definition get_appinstaller_version (run : runner) : option string :=
  match run appinstaller_command with
  | None => None
  | Some result =>
      if negb (returncode result =? 0)%Z then None
      else let txt := strip (stdout_text result) in
           if is_empty txt then None else Some txt
  end.

Definition shell_command (cmd : string) : list string :=
  [cmd; "-NoLogo"; "-NoProfile"; "-Command"; "Write-Output 'ok'"].

(** One round of the loop of [is_powershell_available]: whether the
    candidate ran, exited with code zero and printed [ok]. *)
Definition accepts (run : runner) (cmd : string) : bool :=
  match run (shell_command cmd) with
  | Some result => (returncode result =? 0)%Z && contains "ok" (stdout_text result)
  | None => false
  end.

(** The loop over the candidates: the commands tried, in order, and the
    answer. *)
Fixpoint try_shells (run : runner) (cmds : list string) : list (list string) * bool :=
  match cmds with
  | [] => ([], false)
  | cmd :: rest =>
      if accepts run cmd then ([shell_command cmd], true)
      else let '(tried, found) := try_shells run rest in
           (shell_command cmd :: tried, found)
  end.

Definition is_powershell_available (run : runner) : list (list string) * bool :=
  try_shells run ["powershell"; "pwsh"].

(** The calls [_check_dependencies_worker] hands to the window. *)
Inductive ui_call :=
  | UpdateWingetLabel (state : Probe.WingetState) (version : option string)
  | SetDepState (dep : DepKey.t) (state : UiState.t)
  | SetFixButton (enabled : bool)
  | SetUpgradeAll (enabled : bool).

Definition is_ok (state : Probe.WingetState) : bool :=
  match state with Probe.OK => true | _ => false end.

(** The calls queued with [self.after], in order.  The first statement
    is the probe of winget: when it raises, the worker ends there and
    queues nothing. *)
Definition _check_dependencies_worker (run : runner) : outcome (list ui_call) :=
  match Probe.get_winget_state (run ["winget"; "--version"]) with
  | Raised exc => Raised exc
  | Returned (state, ver) =>
      let ps_ok := (is_powershell_available run).2 in
      let app_ver := get_appinstaller_version run in
      let app_ok := match app_ver with Some _ => true | None => false end in
      let need_fix := negb (is_ok state) || negb app_ok in
      let can_upgrade := is_ok state in
      Returned
        [ UpdateWingetLabel state ver;
          SetDepState DepKey.POWERSHELL (if ps_ok then UiState.OK else UiState.FAIL);
          SetDepState DepKey.DESKTOP_APP_INSTALLER
            (if app_ok then UiState.OK else UiState.FAIL);
          SetFixButton need_fix;
          SetUpgradeAll can_upgrade ]
  end.

(** A machine where every command answers [out] with exit code 0. *)
Definition echo_all (out : string) : runner :=
  λ _, Some {| out_lines := [out]; err_text := ""; returncode := 0 |}.

(** A machine without the first shell but with the second. *)
Definition only_pwsh : runner :=
  λ cmd, match cmd with
         | "pwsh" :: _ => Some {| out_lines := [ln "ok"]; err_text := ""; returncode := 0 |}
         | _ => None
         end.

End Deps.

(** ** The catalog, the list shown and the install worker *)
Module App.
Import Text TextMore.

Record WingetPackage := {
  id : string;
  display_name : string;
  description : string;
  category : string;
  default_selected : bool;
}.

(** [sorted(l, key=...)] on decorated items, the key first: Python's sort
    is stable, so items with equal keys keep their order; inserting
    each item, from the last to the first, in front of the first item
    whose key is not smaller gives exactly that list. *)
Fixpoint insert_by_key (x : string * string) (l : list (string * string))
  : list (string * string) :=
  match l with
  | [] => [x]
  | y :: l' => if String.leb x.1 y.1 then x :: y :: l' else y :: insert_by_key x l'
  end.

Definition sort_by_key (l : list (string * string)) : list (string * string) :=
  foldr insert_by_key [] l.

(** The order of the sort: the first item's key is not above the second's. *)
Definition key_le (a b : string * string) : Prop := String.leb a.1 b.1 = true.

(** A comprehension whose test may raise: [None] is the exception. *)
Fixpoint filter_opt (test : string → option bool) (keys : list string)
  : option (list string) :=
  match keys with
  | [] => Some []
  | k :: rest =>
      match test k with
      | None => None
      | Some keep =>
          match filter_opt test rest with
          | None => None
          | Some ks => Some (if keep then k :: ks else ks)
          end
      end
  end.

(** A comprehension whose body may raise. *)
Fixpoint map_opt {A} (f : string → option A) (keys : list string) : option (list A) :=
  match keys with
  | [] => Some []
  | k :: rest =>
      match f k with
      | None => None
      | Some a =>
          match map_opt f rest with
          | None => None
          | Some l => Some (a :: l)
          end
      end
  end.

Section Catalog.

(** The module-level table [PACKAGES], a dict in insertion order; the
    properties below are proved for every table with distinct keys. *)
Variable PACKAGES : list (string * WingetPackage).

(** [PACKAGES[k]]; [None] is [KeyError]. *)
Fixpoint lookup (l : list (string * WingetPackage)) (k : string) : option WingetPackage :=
  match l with
  | [] => None
  | (k', p) :: l' => if String.eqb k' k then Some p else lookup l' k
  end.

Definition get (k : string) : option WingetPackage := lookup PACKAGES k.

Definition sort_key (k : string) : option (string * string) :=
  match get k with
  | Some p => Some (lower (display_name p), k)
  | None => None
  end.

Definition sorted_keys_for_render (keys : list string) : option (list string) :=
  match map_opt sort_key keys with
  | Some decorated => Some ((sort_by_key decorated).*2)
  | None => None
  end.

(** The text the search looks into. *)
Definition hay (p : WingetPackage) : string :=
  lower (display_name p +:+ " " +:+ description p +:+ " " +:+ id p +:+ " " +:+ category p).

Definition in_category (cat : string) (k : string) : option bool :=
  match get k with
  | Some p => Some (String.eqb (category p) cat)
  | None => None
  end.

Definition matches (q : string) (k : string) : option bool :=
  match get k with
  | Some p => Some (contains q (hay p))
  | None => None
  end.

(** [_filtered_keys], given what the search field and the category
    variable hold. *)
Definition _filtered_keys (search_var category_var : string) : option (list string) :=
  let q := lower (strip search_var) in
  let cat := category_var in
  let keys := PACKAGES.*1 in
  match (if negb (is_empty cat) && negb (String.eqb cat "Alle")
         then filter_opt (in_category cat) keys else Some keys) with
  | None => None
  | Some keys1 =>
      match (if negb (is_empty q) then filter_opt (matches q) keys1 else Some keys1) with
      | None => None
      | Some keys2 => sorted_keys_for_render keys2
      end
  end.

(** The check boxes: [package_vars], one variable per key, in the order
    of the table. *)
Definition initial_vars : list (string * bool) := (λ e, (e.1, false)) <$> PACKAGES.

Definition selected_keys (package_vars : list (string * bool)) : list string :=
  (filter (λ kv, kv.2 = true) package_vars).*1.

(** [_update_selected_count]: the number shown beside the search field. *)
Definition selected_count (package_vars : list (string * bool)) : nat :=
  length (filter (λ kv, kv.2 = true) package_vars).

(** What the install worker ends with: the arguments of
    [_finish_success] and the names listed in the warning, or the
    exception given to [_finish_error] ([None] stands for [KeyError]).
    The calls that only repaint the progress bar and the status line
    while the call runs are not part of the result. *)
Inductive finish :=
  | FinishSuccess (ok fail total : nat) (warned : list string)
  | FinishError (e : option exn).

(** [id_to_name.get(fid, fid)] for the dict built from the table's
    values: of two packages with one id the later wins. *)
Fixpoint name_of (l : list (string * WingetPackage)) (fid : string) : string :=
  match l with
  | [] => fid
  | (_, p) :: l' =>
      if bool_decide (fid ∈ id ∘ snd <$> l') then name_of l' fid
      else if String.eqb (id p) fid then display_name p else name_of l' fid
  end.

Definition _install_worker (e : env) (package_vars : list (string * bool))
  : list effect * finish :=
  let selected := selected_keys package_vars in
  if negb (nonempty selected) then ([], FinishSuccess 0 0 0 [])
  else
    match map_opt (λ k, id <$> get k) selected with
    | None => ([], FinishError None)
    | Some app_ids =>
        let total := length app_ids in
        let '(fx, result) := Install.run_winget_ps_install e app_ids true in
        match result with
        | Raised exc => (fx, FinishError (Some exc))
        | Returned (installed_ids, failed_ids) =>
            let ok := length installed_ids in
            let fail := length failed_ids in
            if (0 <? fail)%nat
            then (fx, FinishSuccess ok fail total (name_of PACKAGES <$> failed_ids))
            else (fx, FinishSuccess ok 0 total [])
        end
    end.

(** The counter [state["done"]] the callback keeps: one more for every
    ok event. *)
Definition done_after (fx : list effect) : nat :=
  length (omap (λ x, match x with FxEvent (EvOk i) => Some i | _ => None end) fx).

(** What [_finish_success] writes in the status line. *)
Inductive final_status :=
  | Done
  | DonePartial (ok total fail : nat)
  | DoneAll (ok total : nat).

Definition _finish_success (ok fail total : nat) : final_status :=
  if (total =? 0)%nat then Done
  else if (0 <? fail)%nat then DonePartial ok total fail
  else DoneAll ok total.

(** The keys: [event.state] and [event.keysym] of a key press. *)
Inductive key_action := SelectAll | DeselectAll | InstallClicked | NoAction.

Definition _on_key_press (state : Z) (keysym : string) : key_action :=
  if negb (Z.land state 4 =? 0)%Z && String.eqb (lower keysym) "a" then SelectAll
  else if negb (Z.land state 4 =? 0)%Z && String.eqb (lower keysym) "d" then DeselectAll
  else if String.eqb keysym "Return" || String.eqb keysym "KP_Enter" then InstallClicked
  else NoAction.

Definition set_all (value : bool) (package_vars : list (string * bool))
  : list (string * bool) :=
  (λ kv, (kv.1, value)) <$> package_vars.

(** What a click on the install button (or the Enter key) leads to. *)
Inductive click_result :=
  | Ignored
  | ShowHint
  | StartWorker (package_vars : list (string * bool)).

Definition _on_install_clicked (installing : bool) (package_vars : list (string * bool))
  : click_result :=
  if installing then Ignored
  else if negb (nonempty (selected_keys package_vars)) then ShowHint
  else StartWorker package_vars.

End Catalog.

(** [_get_row_width]: [canvas_width] is what [winfo_width] gave, [None]
    when there is no canvas or the call raised. *)
Definition ROW_WIDTH : Z := 760.

Definition _get_row_width (canvas_width : option Z) : Z :=
  match canvas_width with
  | Some w => if (50 <? w)%Z then Z.max 1 (w - 28) else ROW_WIDTH
  | None => ROW_WIDTH
  end.

(** [PackageRow.set_width]: the width and the wrap length it sets. *)
Definition set_width (width : Z) : Z * Z := (width, Z.max 180 (width - 60)).

(** A small table used as a test vector. *)
Definition sample_catalog : list (string * WingetPackage) :=
  [ ("vlc", {| id := "VideoLAN.VLC"; display_name := "VLC Media Player";
               description := "Media Player"; category := "Media";
               default_selected := false |});
    ("7zip", {| id := "7zip.7zip"; display_name := "7-Zip";
                description := "Packprogramm (7z/zip/rar)."; category := "Tools";
                default_selected := false |});
    ("firefox", {| id := "Mozilla.Firefox"; display_name := "Mozilla Firefox";
                   description := "Browser (Standard)."; category := "Browser";
                   default_selected := false |});
    ("mpc-hc", {| id := "clsid2.mpc-hc"; display_name := "Media Player Classic";
                  description := "Media Player Classic (leichter Player).";
                  category := "Media"; default_selected := false |}) ].

End App.

(** ** Reading a list of effects *)
Module Trace.

(** The text of the line events, the ids of the ok events and of the
    start events, and the commands handed to [subprocess.Popen] (whether
    or not the launch succeeded), each in order. *)
Definition line_events (fx : list effect) : list string :=
  omap (λ x, match x with FxEvent (EvLine t) => Some t | _ => None end) fx.

Definition ok_events (fx : list effect) : list string :=
  omap (λ x, match x with FxEvent (EvOk i) => Some i | _ => None end) fx.

Definition start_events (fx : list effect) : list string :=
  omap (λ x, match x with FxEvent (EvStart i) => Some i | _ => None end) fx.

Definition popen_calls (fx : list effect) : list (list string) :=
  omap (λ x, match x with FxPopen cmd => Some cmd | _ => None end) fx.



Definition written (fx : list effect) : list (string * string) :=
  omap (λ x, match x with FxWrite path c => Some (path, c) | _ => None end) fx.

Definition statuses (fx : list effect) : list string :=
  omap (λ x, match x with FxStatus t => Some t | _ => None end) fx.

(** Whether the character occurs in the text. *)
Fixpoint has_char (c : ascii) (s : string) : bool :=
  match s with
  | EmptyString => false
  | String a r => Ascii.eqb a c || has_char c r
  end.

(** Whether a digit occurs in the text; whether the text begins with one. *)
Fixpoint has_digit (s : string) : bool :=
  match s with
  | EmptyString => false
  | String a r => Text.isdigit a || has_digit r
  end.

Definition starts_with_digit (s : string) : bool :=
  match s with
  | EmptyString => false
  | String a _ => Text.isdigit a
  end.

(** The id a line announces as started, if the loop treats it so. *)
Definition start_marker (raw : string) : option string :=
  Text.strip <$> Install.re_start (Text.rstrip_crlf raw).

End Trace.

(** ** Further runs used as test vectors *)
Module Vectors.
Import Text.

Definition no_begin_run : process :=
  {| out_lines := [ln "UPDATED_APP: a|b|1|2"; ln "UPGRADE_NONE"; ln "UPGRADE_SUMMARY_END"];
     err_text := ""; returncode := 7 |}.

Definition mixed_run : process :=
  {| out_lines := Upgrade.first_block
                  ++ [ln "UPGRADE_SUMMARY_BEGIN"; ln "UPGRADE_NONE";
                      ln "NOT_UPDATED_APP: c|d"; ln "UPGRADE_SUMMARY_END"];
     err_text := ""; returncode := 1 |}.

Definition chatty_run : process :=
  {| out_lines := [ln "Checking"; nl; ln "Done"]; err_text := ""; returncode := 0 |}.

Definition unmarked_run : process :=
  {| out_lines := [ln "nothing recognised"]; err_text := "x"; returncode := 0 |}.

Definition stdout_only_failure : process :=
  {| out_lines := [ln " only stdout "]; err_text := ln " "; returncode := 5 |}.

(** A run of 4301 digits, one more than [int] converts. *)
Definition long_number : string :=
  String.string_of_list_ascii (replicate 4301 "9"%char).

End Vectors.

(** * Properties *)

(** ** Text and matcher lemmas *)
Section TextFacts.
Import Text.

Lemma nonempty_false {A} (l : list A) : nonempty l = false ↔ l = [].
Proof. destruct l; simpl; split; congruence. Qed.

Lemma nonempty_true {A} (l : list A) : nonempty l = true ↔ l ≠ [].
Proof. destruct l; simpl; split; congruence. Qed.

Lemma is_empty_true s : is_empty s = true ↔ s = "".
Proof. destruct s; simpl; split; congruence. Qed.

Lemma strip_prefix_app p s : strip_prefix p (p +:+ s) = Some s.
Proof.
  induction p as [|a p IH]; [done|].
  change (String a p +:+ s) with (String a (p +:+ s)).
  simpl. by rewrite Ascii.eqb_refl.
Qed.

Lemma str_app_cons c s t : String c s +:+ t = String c (s +:+ t).
Proof. reflexivity. Qed.

Lemma str_app_nil_r s : s +:+ "" = s.
Proof. induction s as [|c s IH]; [done|]. by rewrite str_app_cons, IH. Qed.

Lemma str_app_assoc s t u : (s +:+ t) +:+ u = s +:+ t +:+ u.
Proof. induction s as [|c s IH]; [done|]. by rewrite !str_app_cons, IH. Qed.

Lemma is_empty_false s : is_empty s = false ↔ s ≠ "".
Proof. destruct s; simpl; split; congruence. Qed.

Lemma lstrip_blank c s : isspace c = true → lstrip (String c s) = lstrip s.
Proof. intros H. simpl. by rewrite H. Qed.

End TextFacts.

(** ** The matchers against the words of the patterns *)
Section MatcherFacts.
Import Text Re.

Lemma digit_run_split s :
  s = (digit_run s).1 +:+ (digit_run s).2 ∧ all_digits (digit_run s).1 = true.
Proof.
  induction s as [|c s [IH1 IH2]]; [done|]. simpl.
  destruct (isdigit c) eqn:Ec; [|done].
  destruct (digit_run s) as [run rest]. simpl in *.
  rewrite str_app_cons, <-IH1, Ec, IH2. done.
Qed.

Lemma digit_run_app d s :
  all_digits d = true →
  digit_run (d +:+ s) = (d +:+ (digit_run s).1, (digit_run s).2).
Proof.
  induction d as [|c d IH]; intros Hd.
  - change ("" +:+ s) with s. change ("" +:+ (digit_run s).1) with (digit_run s).1.
    by destruct (digit_run s).
  - simpl in Hd. apply andb_true_iff in Hd as [Hc Hd].
    rewrite !str_app_cons. simpl. rewrite Hc, (IH Hd). done.
Qed.

Lemma digit_run_dot s : digit_run ("." +:+ s) = ("", "." +:+ s).
Proof. reflexivity. Qed.

Lemma version_at_complete d1 d2 d3 post :
  number d1 → number d2 → number d3 →
  version_at (d1 +:+ "." +:+ d2 +:+ "." +:+ d3 +:+ post)
  = Some (d1, d2, d3 +:+ (digit_run post).1).
Proof.
  intros [Hn1 Hd1] [Hn2 Hd2] [Hn3 Hd3]. unfold version_at.
  rewrite (digit_run_app d1) by done. rewrite digit_run_dot. simpl fst; simpl snd.
  rewrite str_app_nil_r. apply is_empty_false in Hn1 as ->.
  change ("." +:+ d2 +:+ "." +:+ d3 +:+ post) with (String "." (d2 +:+ "." +:+ d3 +:+ post)).
  cbv iota beta.
  rewrite (digit_run_app d2) by done. rewrite digit_run_dot. simpl fst; simpl snd.
  rewrite str_app_nil_r. apply is_empty_false in Hn2 as ->.
  change ("." +:+ d3 +:+ post) with (String "." (d3 +:+ post)).
  cbv iota beta.
  rewrite (digit_run_app d3) by done.
  destruct (is_empty (d3 +:+ (digit_run post).1)) eqn:E; [|done].
  apply is_empty_true in E. destruct d3; [done|discriminate].
Qed.

Lemma search_version_unfold s :
  search_version s
  = match version_at s with
    | Some g => Some g
    | None => match s with
              | EmptyString => None
              | String _ r => search_version r
              end
    end.
Proof. by destruct s. Qed.

Lemma search_version_app pre s g :
  version_at s = Some g → is_Some (search_version (pre +:+ s)).
Proof.
  intros Hs. induction pre as [|c pre IH].
  - change ("" +:+ s) with s. rewrite search_version_unfold, Hs. eauto.
  - rewrite str_app_cons, search_version_unfold.
    destruct (version_at (String c (pre +:+ s))); eauto.
Qed.

Lemma version_at_sound s d1 d2 d3 :
  version_at s = Some (d1, d2, d3) →
  ∃ post, s = d1 +:+ "." +:+ d2 +:+ "." +:+ d3 +:+ post
          ∧ number d1 ∧ number d2 ∧ number d3.
Proof.
  unfold version_at.
  destruct (digit_run_split s) as [Hs1 Ha1].
  destruct (digit_run s) as [r1 x1]. simpl in *.
  destruct (is_empty r1) eqn:E1; [done|].
  destruct x1 as [|c1 x1]; [done|].
  destruct (Ascii.eqb_spec c1 ".") as [->|Hc1];
    [|by destruct c1 as [[] [] [] [] [] [] [] []]].
  destruct (digit_run_split x1) as [Hs2 Ha2].
  destruct (digit_run x1) as [r2 x2]. simpl in *.
  destruct (is_empty r2) eqn:E2; [done|].
  destruct x2 as [|c2 x2]; [done|].
  destruct (Ascii.eqb_spec c2 ".") as [->|Hc2];
    [|by destruct c2 as [[] [] [] [] [] [] [] []]].
  destruct (digit_run_split x2) as [Hs3 Ha3].
  destruct (digit_run x2) as [r3 x3]. simpl in *.
  destruct (is_empty r3) eqn:E3; [done|].
  intros [= <- <- <-]. exists x3.
  apply is_empty_false in E1, E2, E3.
  split; [|done].
  rewrite Hs1. f_equal. change ("." +:+ r2 +:+ "." +:+ r3 +:+ x3)
    with (String "." (r2 +:+ String "." (r3 +:+ x3))).
  f_equal. rewrite Hs2 at 1. f_equal. f_equal. done.
Qed.

(** The search finds a version exactly when the text holds the pattern. *)
Lemma search_version_contains s :
  is_Some (search_version s) ↔ contains_version s.
Proof.
  split.
  - induction s as [|c s IH]; rewrite search_version_unfold.
    + destruct (version_at "") as [[[d1 d2] d3]|] eqn:E; [|by intros [? [=]]].
      intros _. apply version_at_sound in E as (post & -> & ?).
      by exists "", d1, d2, d3, post.
    + destruct (version_at (String c s)) as [[[d1 d2] d3]|] eqn:E.
      * intros _. apply version_at_sound in E as (post & -> & ?).
        by exists "", d1, d2, d3, post.
      * intros H. destruct (IH H) as (pre & d1 & d2 & d3 & post & -> & ?).
        by exists (String c pre), d1, d2, d3, post.
  - intros (pre & d1 & d2 & d3 & post & -> & H1 & H2 & H3).
    eapply search_version_app, version_at_complete; done.
Qed.

Lemma search_version_none s :
  ¬ contains_version s → search_version s = None.
Proof.
  intros H. destruct (search_version s) eqn:E; [|done].
  exfalso. apply H, search_version_contains. eauto.
Qed.

Lemma dot_run_no_lf s : has_lf s = false → dot_run s = (s, "").
Proof.
  induction s as [|c s IH]; [done|]. simpl.
  intros [Hc Hs]%orb_false_iff. by rewrite Hc, (IH Hs).
Qed.

Lemma capture_no_lf s :
  s ≠ "" → has_lf s = false → capture_to_end s = Some s.
Proof.
  intros Hne Hlf. unfold capture_to_end. rewrite (dot_run_no_lf _ Hlf).
  by apply is_empty_false in Hne as ->.
Qed.

Lemma blanks_then_capture_some s :
  s ≠ "" → has_lf s = false → is_Some (blanks_then_capture s).
Proof.
  intros Hne Hlf. destruct s as [|c s]; [done|]. simpl blanks_then_capture.
  rewrite (capture_no_lf (String c s)) by done.
  destruct (isspace c); [|eauto]. destruct (blanks_then_capture s); eauto.
Qed.

Lemma blanks_then_capture_strip s : ∀ g,
  has_lf s = false → blanks_then_capture s = Some g → strip g = strip s.
Proof.
  induction s as [|c s IH]; intros g Hlf; [done|].
  pose proof Hlf as [_ Hs]%orb_false_iff.
  simpl blanks_then_capture. rewrite (capture_no_lf (String c s)) by done.
  destruct (isspace c) eqn:Ec; [|by intros [= <-]].
  destruct (blanks_then_capture s) as [g'|] eqn:Eg; intros [= <-]; [|done].
  unfold strip at 2. rewrite (lstrip_blank _ _ Ec). by apply IH.
Qed.

Lemma search_marker_unfold lit s :
  search_marker lit s
  = match match strip_prefix lit s with
          | Some rest => blanks_then_capture rest
          | None => None
          end with
    | Some g => Some g
    | None => match s with
              | EmptyString => None
              | String _ r => search_marker lit r
              end
    end.
Proof. by destruct s. Qed.

(** A line that begins with the marker text and goes on, without a line
    feed, is matched at its start, and the group is the rest of the line
    up to blanks at its ends. *)
Lemma search_marker_literal lit rest :
  rest ≠ "" → has_lf rest = false →
  ∃ g, search_marker lit (lit +:+ rest) = Some g ∧ strip g = strip rest.
Proof.
  intros Hne Hlf.
  destruct (blanks_then_capture_some rest Hne Hlf) as [g Hg].
  exists g. split; [|by apply blanks_then_capture_strip].
  by rewrite search_marker_unfold, strip_prefix_app, Hg.
Qed.

Lemma lstrip_suffix s : ∃ a, s = a +:+ lstrip s.
Proof.
  induction s as [|c s [a IH]]; [by exists ""|]. simpl.
  destruct (isspace c); [|by exists ""].
  exists (String c a). by rewrite str_app_cons, <-IH.
Qed.

Lemma rstrip_prefix s : ∃ b, s = rstrip s +:+ b.
Proof.
  induction s as [|c s [b IH]]; [by exists ""|]. simpl.
  destruct (is_empty (rstrip s) && isspace c); [by exists (String c s)|].
  exists b. by rewrite str_app_cons, <-IH.
Qed.

Lemma contains_version_inside a t b :
  contains_version t → contains_version (a +:+ t +:+ b).
Proof.
  intros (pre & d1 & d2 & d3 & post & -> & ?).
  exists (a +:+ pre), d1, d2, d3, (post +:+ b). split; [|done].
  by rewrite !str_app_assoc.
Qed.

Lemma digit_not_space c : isdigit c = true → isspace c = false.
Proof. by destruct c as [[] [] [] [] [] [] [] []]. Qed.

Lemma lstrip_app_keep pre c y :
  isspace c = false → lstrip (pre +:+ String c y) = lstrip pre +:+ String c y.
Proof.
  intros Hc. induction pre as [|a pre IH].
  - change ("" +:+ String c y) with (String c y). simpl. by rewrite Hc.
  - rewrite str_app_cons. simpl. destruct (isspace a); [done|].
    by rewrite str_app_cons.
Qed.

Lemma rstrip_app_keep x c y :
  isspace c = false → rstrip (x +:+ String c y) = x +:+ String c (rstrip y).
Proof.
  intros Hc. induction x as [|a x IH].
  - change ("" +:+ String c y) with (String c y). simpl.
    by rewrite Hc, andb_false_r.
  - rewrite str_app_cons. simpl. rewrite IH.
    destruct x; by rewrite !str_app_cons.
Qed.

Lemma rstrip_digits_keep d post :
  all_digits d = true → ∃ post', rstrip (d +:+ post) = d +:+ post'.
Proof.
  induction d as [|c d IH]; intros Hd; [by exists (rstrip post)|].
  simpl in Hd. apply andb_true_iff in Hd as [Hc Hd].
  destruct (IH Hd) as [post' Hp]. exists post'.
  change (String c d +:+ post) with ("" +:+ String c (d +:+ post)).
  rewrite rstrip_app_keep by by apply digit_not_space.
  by rewrite Hp.
Qed.

(** Stripping the text cannot take a version out of it. *)
Lemma contains_version_survives_strip s :
  contains_version s → contains_version (strip s).
Proof.
  intros (pre & d1 & d2 & d3 & post & -> & H1 & H2 & H3).
  destruct d1 as [|c1 d1]; [by destruct H1|].
  destruct d3 as [|c3 d3]; [by destruct H3|].
  pose proof H1 as [_ [Hc1 _]%andb_true_iff].
  pose proof H3 as [_ [Hc3 Hd3]%andb_true_iff].
  unfold strip. rewrite str_app_cons, lstrip_app_keep by by apply digit_not_space.
  replace (lstrip pre +:+ String c1 (d1 +:+ "." +:+ d2 +:+ "." +:+ String c3 d3 +:+ post))
    with ((lstrip pre +:+ String c1 d1 +:+ "." +:+ d2 +:+ ".") +:+ String c3 (d3 +:+ post)).
  2:{ rewrite ?str_app_assoc, ?str_app_cons, ?str_app_assoc. done. }
  rewrite rstrip_app_keep by by apply digit_not_space.
  destruct (rstrip_digits_keep d3 post Hd3) as [post' ->].
  exists (lstrip pre), (String c1 d1), d2, (String c3 d3), post'.
  split; [|done].
  rewrite ?str_app_assoc, ?str_app_cons, ?str_app_assoc. done.
Qed.

(** Stripping the text cannot bring a version into it. *)
Lemma contains_version_strip s : contains_version (strip s) → contains_version s.
Proof.
  intros H. unfold strip in H.
  destruct (lstrip_suffix s) as [a Ha], (rstrip_prefix (lstrip s)) as [b Hb].
  rewrite Ha, Hb. by apply contains_version_inside.
Qed.

End MatcherFacts.

(** ** The install loop *)
Section InstallFacts.
Import Text Install.

Lemma loop_body_installed b st raw :
  installed (loop_body b st raw).1 = installed st ++ option_list (ok_marker raw).
Proof.
  unfold loop_body, ok_marker.
  destruct (re_start (rstrip_crlf raw)); simpl; [by rewrite app_nil_r|].
  destruct (re_ok (rstrip_crlf raw)); simpl; [done|].
  destruct (re_failed (rstrip_crlf raw)); simpl; by rewrite app_nil_r.
Qed.

Lemma loop_body_failed b st raw :
  failed_ids_from_summary (loop_body b st raw).1
  = default (failed_ids_from_summary st) (failed_marker raw).
Proof.
  unfold loop_body, failed_marker.
  destruct (re_start (rstrip_crlf raw)); simpl; [done|].
  destruct (re_ok (rstrip_crlf raw)); simpl; [done|].
  by destruct (re_failed (rstrip_crlf raw)).
Qed.

Lemma loop_cons b st raw rest :
  (loop b st (raw :: rest)).1 = (loop b (loop_body b st raw).1 rest).1.
Proof.
  simpl. destruct (loop_body b st raw) as [st1 fx1]. simpl.
  by destruct (loop b st1 rest).
Qed.

Lemma loop_installed b lines : ∀ st,
  installed (loop b st lines).1 = installed st ++ ok_ids lines.
Proof.
  induction lines as [|raw rest IH]; intros st.
  - simpl. by rewrite app_nil_r.
  - rewrite loop_cons, IH, loop_body_installed.
    unfold ok_ids. simpl. rewrite <-app_assoc. f_equal.
    by destruct (ok_marker raw).
Qed.

Lemma loop_failed b lines : ∀ st,
  failed_ids_from_summary (loop b st lines).1
  = default (failed_ids_from_summary st) (last (omap failed_marker lines)).
Proof.
  induction lines as [|raw rest IH]; intros st; [done|].
  rewrite loop_cons, IH, loop_body_failed. simpl.
  destruct (failed_marker raw) as [fl|]; simpl; [|done].
  rewrite last_cons. by destruct (last _).
Qed.

Lemma loop_final b lines : (loop b loop_init lines).1 = final_state lines.
Proof.
  pose proof (loop_installed b lines loop_init) as Hi.
  pose proof (loop_failed b lines loop_init) as Hf.
  destruct (loop b loop_init lines).1 as [i f]. simpl in *.
  unfold final_state, last_failed. by subst.
Qed.

(** A launched run is the reconciliation of what the stream marked. *)
Lemma run_launched e app_ids b proc :
  app_ids ≠ [] → ps1_exists e = true →
  popen e (command e app_ids) = Some proc →
  (run_winget_ps_install e app_ids b).2
  = reconcile (final_state (out_lines proc)) (returncode proc) (err_text proc).
Proof.
  intros Hne Hex Hp. unfold run_winget_ps_install.
  apply nonempty_true in Hne. rewrite Hne, Hex, Hp. simpl.
  rewrite <-(loop_final b).
  by destruct (loop b loop_init (out_lines proc)).
Qed.

Lemma reconcile_returned st rc stderr s f :
  reconcile st rc stderr = Returned (s, f) →
  s = installed st ∧ f = failed_ids_from_summary st.
Proof.
  unfold reconcile. case_match; [done|]. intros [= <- <-]. split; [done|].
  by destruct (failed_ids_from_summary st).
Qed.

Lemma omap_all_none {A B} (f : A → option B) (l : list A) :
  Forall (λ x, f x = None) l → omap f l = [].
Proof. induction 1 as [|x l Hx _ IH]; [done|]. simpl. by rewrite Hx. Qed.

Lemma omap_cons_some {A B} (f : A → option B) x y (l : list A) :
  f x = Some y → omap f (x :: l) = y :: omap f l.
Proof. intros Hx. simpl. by rewrite Hx. Qed.

Lemma last_failed_none lines :
  Forall (λ raw, failed_marker raw = None) lines → last_failed lines = [].
Proof. intros H. unfold last_failed. by rewrite (omap_all_none _ _ H). Qed.

Lemma ok_ids_none lines :
  Forall (λ raw, ok_marker raw = None) lines → ok_ids lines = [].
Proof. apply omap_all_none. Qed.

Lemma last_failed_app pre raw post fl :
  failed_marker raw = Some fl →
  Forall (λ r, failed_marker r = None) post →
  last_failed (pre ++ raw :: post) = fl.
Proof.
  intros Hr Hpost. unfold last_failed.
  rewrite omap_app, (omap_cons_some _ _ _ _ Hr), (omap_all_none _ _ Hpost).
  by rewrite last_snoc.
Qed.

(** The textual form of the two result markers: a line that begins with
    the marker text, goes on without a line feed, and on which no
    earlier pattern of the loop matches. *)
Lemma ok_marker_literal raw rest :
  rstrip_crlf raw = "App installed successfully:" +:+ rest →
  rest ≠ "" → has_lf rest = false →
  re_start (rstrip_crlf raw) = None →
  ok_marker raw = Some (strip rest).
Proof.
  intros Hraw Hne Hlf Hs. unfold ok_marker. rewrite Hs, Hraw.
  destruct (search_marker_literal "App installed successfully:" rest Hne Hlf)
    as (g & Hg & Hstrip).
  unfold re_ok. rewrite Hg. simpl. by rewrite Hstrip.
Qed.

Lemma failed_marker_literal raw rest :
  rstrip_crlf raw = "FAILED_APPS:" +:+ rest →
  rest ≠ "" → has_lf rest = false →
  re_start (rstrip_crlf raw) = None → re_ok (rstrip_crlf raw) = None →
  failed_marker raw
  = Some (filter (λ s, is_empty s = false) (strip <$> split ","%char (strip rest))).
Proof.
  intros Hraw Hne Hlf Hs Ho. unfold failed_marker. rewrite Hs, Ho, Hraw.
  destruct (search_marker_literal "FAILED_APPS:" rest Hne Hlf) as (g & Hg & Hstrip).
  unfold re_failed. rewrite Hg. simpl. by rewrite Hstrip.
Qed.

End InstallFacts.

(** ** Reconciliation of the install result *)
Section InstallClaims.
Import Text Install.

(** C1, as the spec has it, fails: for the requested ids A.App and B.App
    and a stream that marks only A.App as installed, without any
    FAILED_APPS line and with exit code 1, the code returns an empty
    failed list, while the ids not marked Ok are B.App. *)
Lemma install_unmarked_not_failed :
  Forall (λ raw, failed_marker raw = None) (out_lines partial_run)
  ∧ (run_winget_ps_install (env_with partial_run) ["A.App"; "B.App"] true).2
    = Returned (["A.App"], [])
  ∧ requested_not_ok ["A.App"; "B.App"] (out_lines partial_run) = ["B.App"]
  ∧ (run_winget_ps_install (env_with partial_run) ["A.App"; "B.App"] true).2
    ≠ Returned (["A.App"], ["B.App"]).
Proof.
  split; [|split; [|split]]; [|vm_compute; reflexivity..|].
  - repeat constructor.
  - vm_compute. discriminate.
Qed.

(** C1 (amended): when no line of the stream sets the FAILED_APPS list,
    a returned result has the ids marked Ok, in stream order, as its
    succeeded list and an empty failed list: nothing is inferred from
    the requested ids. *)
Theorem install_failed_empty_without_marker e app_ids b proc s f :
  app_ids ≠ [] → ps1_exists e = true →
  popen e (command e app_ids) = Some proc →
  Forall (λ raw, failed_marker raw = None) (out_lines proc) →
  (run_winget_ps_install e app_ids b).2 = Returned (s, f) →
  s = ok_ids (out_lines proc) ∧ f = [].
Proof.
  intros Hne Hex Hp Hnone Hrun.
  rewrite (run_launched _ _ _ _ Hne Hex Hp) in Hrun.
  apply reconcile_returned in Hrun as [-> ->]. simpl.
  split; [done|]. by apply last_failed_none.
Qed.

Lemma install_failed_empty_without_marker_witness :
  ["A.App"] = ok_ids (out_lines partial_run) ∧ @nil string = [].
Proof.
  apply (install_failed_empty_without_marker
           (env_with partial_run) ["A.App"; "B.App"] true partial_run).
  - discriminate.
  - reflexivity.
  - reflexivity.
  - repeat constructor.
  - vm_compute. reflexivity.
Defined.

(** C2: a run that exits non-zero never returns the empty-empty result;
    and when no line marked an id Ok and none set the FAILED_APPS list,
    it raises the runtime error whose text is the header line followed
    by at most the first ten lines of the stripped standard error (of
    the fallback text, when that is blank). *)
Theorem install_process_failure e app_ids b proc :
  app_ids ≠ [] → ps1_exists e = true →
  popen e (command e app_ids) = Some proc →
  returncode proc ≠ 0%Z →
  (run_winget_ps_install e app_ids b).2 ≠ Returned ([], [])
  ∧ (Forall (λ raw, ok_marker raw = None) (out_lines proc) →
     Forall (λ raw, failed_marker raw = None) (out_lines proc) →
     ∃ excerpt,
       (run_winget_ps_install e app_ids b).2
       = Raised (RuntimeError
           ("Winget-Installation ist fehlgeschlagen:" +:+ nl +:+ join nl excerpt))
       ∧ excerpt = take 10 (splitlines (str_or (strip (err_text proc)) "Unbekannter Fehler"))
       ∧ (length excerpt ≤ 10)%nat).
Proof.
  intros Hne Hex Hp Hrc.
  rewrite (run_launched _ _ _ _ Hne Hex Hp).
  apply Z.eqb_neq in Hrc. split.
  - unfold reconcile. rewrite Hrc. simpl.
    destruct (last_failed (out_lines proc)); simpl.
    + destruct (ok_ids (out_lines proc)); simpl; [done|]. by intros [=].
    + by intros [=].
  - intros Hok Hfail. eexists. split; [|split; [reflexivity|]].
    + unfold reconcile. simpl.
      rewrite Hrc, (last_failed_none _ Hfail), (ok_ids_none _ Hok). reflexivity.
    + rewrite length_take. lia.
Qed.

Lemma install_process_failure_witness :
  (run_winget_ps_install (env_with silent_failure) ["B.App"] true).2
  = Raised (RuntimeError
      ("Winget-Installation ist fehlgeschlagen:" +:+ nl +:+
       join nl ["e1"; "e2"; "e3"; "e4"; "e5"; "e6"; "e7"; "e8"; "e9"; "e10"])).
Proof.
  destruct (install_process_failure (env_with silent_failure) ["B.App"] true silent_failure)
    as [_ H]; [discriminate|reflexivity|reflexivity|discriminate|].
  destruct H as (excerpt & Hrun & Hex & _); [repeat constructor..|].
  rewrite Hrun, Hex. reflexivity.
Defined.

(** C3, as the spec has it, fails: of two FAILED_APPS lines the later
    one decides, so the entries of the first are not the failed list. *)
Lemma failed_apps_line_overridden :
  ln "FAILED_APPS: a" ∈ out_lines two_failed_lists
  ∧ failed_marker (ln "FAILED_APPS: a") = Some ["a"]
  ∧ (run_winget_ps_install (env_with two_failed_lists) ["a"; "b"] true).2
    = Returned ([], ["b"])
  ∧ (run_winget_ps_install (env_with two_failed_lists) ["a"; "b"] true).2
    ≠ Returned ([], ["a"]).
Proof.
  split; [|split; [|split]]; [|vm_compute; reflexivity..|].
  - apply list_elem_of_here.
  - vm_compute. discriminate.
Qed.

(** C3 (amended): the failed list of a returned result is the list set
    by the last line the loop takes as a FAILED_APPS line (the comma
    separated entries of its tail, each stripped, empty ones dropped),
    whatever was marked Ok before and whatever the exit code; and when
    that list is not empty a result is returned for every exit code. *)
Theorem install_failed_from_last_marker e app_ids b proc pre raw post tail :
  app_ids ≠ [] → ps1_exists e = true →
  popen e (command e app_ids) = Some proc →
  out_lines proc = pre ++ raw :: post →
  re_start (rstrip_crlf raw) = None → re_ok (rstrip_crlf raw) = None →
  re_failed (rstrip_crlf raw) = Some tail →
  Forall (λ r, failed_marker r = None) post →
  let entries := filter (λ s, is_empty s = false) (strip <$> split ","%char (strip tail)) in
  (∀ s f, (run_winget_ps_install e app_ids b).2 = Returned (s, f) → f = entries)
  ∧ (entries ≠ [] →
     (run_winget_ps_install e app_ids b).2 = Returned (ok_ids (out_lines proc), entries)).
Proof.
  intros Hne Hex Hp Hlines Hs Ho Hf Hpost. cbv zeta.
  generalize (eq_refl (filter (λ s, is_empty s = false) (strip <$> split ","%char (strip tail)))).
  generalize (filter (λ s, is_empty s = false) (strip <$> split ","%char (strip tail))) at 1 3 4 5.
  intros entries Hentries.
  assert (failed_marker raw = Some entries) as Hm.
  { unfold failed_marker. rewrite Hs, Ho, Hf. simpl. by rewrite Hentries. }
  clear Hentries.
  rewrite (run_launched _ _ _ _ Hne Hex Hp), Hlines.
  pose proof (last_failed_app pre raw post entries Hm Hpost) as Hlast.
  split.
  - intros s f Hrun. apply reconcile_returned in Hrun as [_ ->]. done.
  - intros Hent. unfold reconcile. simpl. rewrite Hlast.
    destruct entries; [done|]. simpl.
    by destruct (returncode proc =? 0)%Z.
Qed.

Lemma install_failed_from_last_marker_witness :
  (run_winget_ps_install (env_with failed_after_ok) ["a"; "b"; "c"; "d"] true).2
  = Returned (["c"; "d"], ["a"; "b"]).
Proof.
  refine (proj2 (install_failed_from_last_marker (env_with failed_after_ok)
    ["a"; "b"; "c"; "d"] true failed_after_ok
    [ln "App installed successfully: c"; ln "App installed successfully: d"]
    (ln "FAILED_APPS: a, b") [] "a, b" _ _ _ _ _ _ _ _) _);
    try reflexivity; try discriminate.
  constructor.
Defined.

(** C4, as the spec has it, fails: a stream that marks an id Ok and
    then lists it in FAILED_APPS gives a result with that id in both
    lists. *)
Lemma install_lists_can_overlap :
  (run_winget_ps_install (env_with ok_and_failed) ["a"] true).2
  = Returned (["a"], ["a"])
  ∧ (list_to_set ["a"] : gset string) ∩ list_to_set ["a"] ≠ ∅.
Proof.
  split; [vm_compute; reflexivity|].
  intros H. assert ("a" ∈ (∅ : gset string)) as Hin; [|set_solver].
  rewrite <-H. set_solver.
Qed.

(** C4 (amended): the two lists of a returned result are the ids the
    stream marks Ok and the list set by the last FAILED_APPS line, and
    they are disjoint exactly when no id that some line marks Ok is an
    entry of that last list; earlier FAILED_APPS lines do not count, and
    the code removes no overlap of its own. *)
Theorem install_lists_disjoint_iff e app_ids b proc s f :
  app_ids ≠ [] → ps1_exists e = true →
  popen e (command e app_ids) = Some proc →
  (run_winget_ps_install e app_ids b).2 = Returned (s, f) →
  s = ok_ids (out_lines proc) ∧ f = last_failed (out_lines proc)
  ∧ ((list_to_set s : gset string) ∩ list_to_set f = ∅
     ↔ ∀ raw id, raw ∈ out_lines proc → ok_marker raw = Some id →
                 id ∉ last_failed (out_lines proc)).
Proof.
  intros Hne Hex Hp Hrun.
  rewrite (run_launched _ _ _ _ Hne Hex Hp) in Hrun.
  apply reconcile_returned in Hrun as [-> ->]. simpl.
  split; [done|]. split; [done|]. split.
  - intros Hdis raw id Hraw Hm Hfail.
    assert (id ∈ (list_to_set (ok_ids (out_lines proc)) : gset string)
                 ∩ list_to_set (last_failed (out_lines proc))) as Hin.
    { rewrite elem_of_intersection, !elem_of_list_to_set. split; [|done].
      apply list_elem_of_omap. eauto. }
    rewrite Hdis in Hin. by apply not_elem_of_empty in Hin.
  - intros Hcons. apply set_eq. intros id. split; [|set_solver].
    rewrite elem_of_intersection, !elem_of_list_to_set.
    intros [Hok Hfail]. exfalso.
    apply list_elem_of_omap in Hok as (raw & Hraw & Hm).
    by apply (Hcons raw id).
Qed.

Lemma install_lists_disjoint_iff_witness :
  (run_winget_ps_install (env_with overlap_overridden) ["a"; "b"] true).2
  = Returned (["a"], ["b"])
  ∧ (list_to_set ["a"] : gset string) ∩ list_to_set ["b"] = ∅.
Proof.
  split; [vm_compute; reflexivity|].
  destruct (install_lists_disjoint_iff (env_with overlap_overridden) ["a"; "b"] true
              overlap_overridden ["a"] ["b"]) as (_ & _ & Hiff);
    [discriminate|reflexivity|reflexivity|vm_compute; reflexivity|].
  apply Hiff. intros raw id Hraw Hm.
  assert (id ∈ ok_ids (out_lines overlap_overridden)) as Hid.
  { apply list_elem_of_omap. eauto. }
  change (ok_ids (out_lines overlap_overridden)) with ["a"] in Hid.
  change (last_failed (out_lines overlap_overridden)) with ["b"].
  apply list_elem_of_singleton in Hid as ->.
  by intros ?%list_elem_of_singleton.
Defined.

(** C10: with no package identifier requested the call returns the
    empty result at once: it does not look for the script (so it
    cannot raise its absence), starts no process and delivers no
    event, in every environment and with or without a callback. *)
Theorem install_empty_request e b :
  run_winget_ps_install e [] b = ([], Returned ([], [])).
Proof. reflexivity. Qed.

End InstallClaims.

(** ** The summary block of an upgrade run *)
Section UpgradeClaims.
Import Text Upgrade.

Lemma collect_app a b : (collect (a ++ b)).1 = (collect a).1 ++ (collect b).1.
Proof.
  induction a as [|raw a IH]; [done|]. simpl.
  destruct (collect (a ++ b)) as [ls fx], (collect a) as [ls' fx'].
  simpl in IH. subst ls.
  by destruct (is_empty (rstrip_crlf raw)).
Qed.

Lemma collect_Forall (P : string → Prop) raws :
  Forall (λ raw, P (rstrip_crlf raw)) raws → Forall P (collect raws).1.
Proof.
  induction 1 as [|raw raws Hr _ IH]; [by constructor|]. simpl.
  destruct (collect raws) as [ls fx].
  destruct (is_empty (rstrip_crlf raw)); simpl; [done|by constructor].
Qed.

(** Outside the block only the opening sentinel changes anything. *)
Lemma summary_step_outside st line :
  inside st = false → line ≠ "UPGRADE_SUMMARY_BEGIN" → summary_step st line = st.
Proof.
  intros Hin Hne. unfold summary_step.
  destruct (String.eqb_spec line "UPGRADE_SUMMARY_BEGIN"); [done|].
  destruct (String.eqb_spec line "UPGRADE_SUMMARY_END").
  - destruct st; simpl in *; by subst.
  - by rewrite Hin.
Qed.

Lemma summary_step_lists_outside st line :
  inside st = false →
  updated (summary_step st line) = updated st
  ∧ not_updated (summary_step st line) = not_updated st.
Proof.
  intros Hin. unfold summary_step.
  destruct (String.eqb line "UPGRADE_SUMMARY_BEGIN"); [done|].
  destruct (String.eqb line "UPGRADE_SUMMARY_END"); [done|].
  by rewrite Hin.
Qed.

Lemma foldl_outside lines : ∀ st,
  inside st = false → Forall (λ l, l ≠ "UPGRADE_SUMMARY_BEGIN") lines →
  foldl summary_step st lines = st.
Proof.
  induction lines as [|l lines IH]; intros st Hin Hall; [done|].
  apply Forall_cons in Hall as [Hl Hall]. simpl.
  rewrite summary_step_outside by done. by apply IH.
Qed.

(** C8: a line read while the inside flag is off never changes the two
    lists, whatever its text; and noise (any lines but the opening
    sentinel itself) inserted at a point where the flag is off leaves
    the whole summary of the stream as it is without the noise. *)
Theorem summary_ignores_outside_noise pre noise post :
  inside (summary_of pre) = false →
  Forall (λ raw, rstrip_crlf raw ≠ "UPGRADE_SUMMARY_BEGIN") noise →
  summary_of (pre ++ noise ++ post) = summary_of (pre ++ post)
  ∧ (∀ st line, inside st = false →
       updated (summary_step st line) = updated st
       ∧ not_updated (summary_step st line) = not_updated st).
Proof.
  intros Hin Hnoise. split; [|apply summary_step_lists_outside].
  unfold summary_of, parse_summary in *.
  rewrite !collect_app, !foldl_app.
  f_equal. apply foldl_outside; [done|].
  by apply (collect_Forall (λ l, l ≠ "UPGRADE_SUMMARY_BEGIN")).
Qed.

Lemma summary_ignores_outside_noise_witness :
  summary_of (first_block ++ outside_noise ++ second_block)
  = {| updated := [("a", "b", "1", "2")]; not_updated := [("c", "d", "", "")];
       inside := false; had_none := false |}.
Proof.
  refine (eq_trans (proj1 (summary_ignores_outside_noise
    first_block outside_noise second_block _ _)) _).
  - reflexivity.
  - repeat constructor; vm_compute; discriminate.
  - vm_compute. reflexivity.
Defined.

Lemma parse_record_fields payload : parse_record payload = record_fields payload.
Proof.
  unfold parse_record, record_fields.
  destruct (strip <$> split "|"%char payload) as [|a [|b [|c [|d l]]]]; reflexivity.
Qed.

Lemma updated_line_not_sentinel payload s :
  prefix_n 3 s ≠ "UPD" → String.eqb ("UPDATED_APP: " +:+ payload) s = false.
Proof.
  intros Hs. apply String.eqb_neq. intros <-. apply Hs. reflexivity.
Qed.

Lemma not_updated_line_not_sentinel payload s :
  prefix_n 1 s ≠ "N" → String.eqb ("NOT_UPDATED_APP: " +:+ payload) s = false.
Proof.
  intros Hs. apply String.eqb_neq. intros <-. apply Hs. reflexivity.
Qed.

Lemma summary_step_updated st payload :
  inside st = true →
  summary_step st ("UPDATED_APP: " +:+ payload)
  = {| updated := updated st ++ [record_fields payload];
       not_updated := not_updated st;
       inside := true; had_none := had_none st |}.
Proof.
  intros Hin. unfold summary_step.
  rewrite !updated_line_not_sentinel by (vm_compute; discriminate).
  rewrite Hin, strip_prefix_app, parse_record_fields. done.
Qed.

Lemma summary_step_not_updated st payload :
  inside st = true →
  summary_step st ("NOT_UPDATED_APP: " +:+ payload)
  = {| updated := updated st;
       not_updated := not_updated st ++ [record_fields payload];
       inside := true; had_none := had_none st |}.
Proof.
  intros Hin. unfold summary_step.
  rewrite !not_updated_line_not_sentinel by (vm_compute; discriminate).
  rewrite Hin.
  change (strip_prefix "UPDATED_APP: " ("NOT_UPDATED_APP: " +:+ payload)) with (@None string).
  rewrite (strip_prefix_app "NOT_UPDATED_APP: "), parse_record_fields. done.
Qed.

Lemma summary_entries entries : ∀ st, inside st = true →
  updated (foldl summary_step st (entry_line <$> entries))
  = updated st ++ (record_fields ∘ snd <$> filter (λ x, x.1 = true) entries)
  ∧ not_updated (foldl summary_step st (entry_line <$> entries))
    = not_updated st ++ (record_fields ∘ snd <$> filter (λ x, x.1 = false) entries).
Proof.
  induction entries as [|[[] payload] entries IH]; intros st Hin.
  - simpl. by rewrite !app_nil_r.
  - rewrite fmap_cons. cbn [foldl]. unfold entry_line at 1 3. cbn [fst snd].
    rewrite summary_step_updated by done.
    rewrite !filter_cons. cbn [fst]. repeat case_decide; try done.
    destruct (IH {| updated := updated st ++ [record_fields payload];
                    not_updated := not_updated st; inside := true;
                    had_none := had_none st |} eq_refl) as [-> ->].
    simpl. by rewrite <-app_assoc.
  - rewrite fmap_cons. cbn [foldl]. unfold entry_line at 1 3. cbn [fst snd].
    rewrite summary_step_not_updated by done.
    rewrite !filter_cons. cbn [fst]. repeat case_decide; try done.
    destruct (IH {| updated := updated st;
                    not_updated := not_updated st ++ [record_fields payload];
                    inside := true; had_none := had_none st |} eq_refl) as [-> ->].
    simpl. by rewrite <-app_assoc.
Qed.

End UpgradeClaims.

(** ** The log artifact *)
Section LogClaims.
Import Text.

Lemma install_loop_no_write b lines : ∀ st,
  Forall (λ fx, is_write fx = false) (Install.loop b st lines).2.
Proof.
  induction lines as [|raw rest IH]; intros st; [by constructor|]. simpl.
  destruct (Install.loop_body b st raw) as [st1 fx1] eqn:E1.
  specialize (IH st1). destruct (Install.loop b st1 rest) as [st2 fx2].
  simpl in *. apply Forall_app. split; [|done].
  unfold Install.loop_body in E1.
  repeat case_match; simplify_eq; destruct b; simpl; repeat constructor.
Qed.

Lemma install_no_write e app_ids b :
  Forall (λ fx, is_write fx = false) (Install.run_winget_ps_install e app_ids b).1.
Proof.
  unfold Install.run_winget_ps_install.
  destruct (negb (nonempty app_ids)); [by constructor|].
  destruct (negb (ps1_exists e)); [by repeat constructor|].
  destruct (popen e _) as [proc|]; [|by repeat constructor].
  pose proof (install_loop_no_write b (out_lines proc) Install.loop_init) as H.
  destruct (Install.loop b Install.loop_init (out_lines proc)) as [st fx].
  simpl in *. by repeat constructor.
Qed.

Lemma collect_no_write raws :
  Forall (λ fx, is_write fx = false) (Upgrade.collect raws).2.
Proof.
  induction raws as [|raw raws IH]; [by constructor|]. simpl.
  destruct (Upgrade.collect raws) as [ls fx].
  destruct (is_empty (rstrip_crlf raw)); simpl in *; [done|by constructor].
Qed.

Lemma upgrade_no_write e :
  Forall (λ fx, is_write fx = false) (Upgrade.worker e).1.
Proof.
  unfold Upgrade.worker. destruct (popen e _) as [proc|]; [|by repeat constructor].
  pose proof (collect_no_write (out_lines proc)) as H.
  destruct (Upgrade.collect (out_lines proc)) as [ls fx]. simpl in *.
  by constructor.
Qed.

Lemma no_write_no_file fx :
  Forall (λ x, is_write x = false) fx → ¬ writes_file fx.
Proof.
  intros H (path & content & Hin).
  by apply (proj1 (Forall_forall _ _) H) in Hin.
Qed.

(** C5, as the spec has it, fails: neither the install call nor the
    upgrade worker writes any file, on a run that launches the script
    just as on any other. *)
Lemma install_and_upgrade_write_no_log :
  ¬ writes_file (Install.run_winget_ps_install
                   (Install.env_with Install.partial_run) ["A.App"; "B.App"] true).1
  ∧ ¬ writes_file (Upgrade.worker (Install.env_with Install.partial_run)).1.
Proof.
  split; apply no_write_no_file; [apply install_no_write|apply upgrade_no_write].
Qed.

(** C5 (amended): only the setup call writes a log. Whenever the script
    is there and starts, the result of the setup call is the same
    whatever goes wrong while the log is written; when nothing goes
    wrong the call writes, to [winget-setup.log] beside the executable,
    the command line, the script path, the exit code and the captured
    standard output and standard error. The install call and the
    upgrade worker write no file at all. *)
Theorem log_written_by_setup_only e p fault :
  ps1_exists e = true → popen e (Setup.command e) = Some p →
  (Setup.run_winget_ps_setup (with_log_fault e fault)).2 = (Setup.run_winget_ps_setup e).2
  ∧ (Setup.run_winget_ps_setup (with_log_fault e None)).1
    = [FxExists (ps1_path e); FxPopen (Setup.command e);
       FxWrite (exe_dir e +:+ "\winget-setup.log")
         (foldr String.app ""
            [ "Command : " +:+ join " " (Setup.command e) +:+ nl;
              "PS1     : " +:+ ps1_path e +:+ nl;
              "Return  : " +:+ pretty (returncode p) +:+ nl +:+ nl;
              "=== STDOUT ===" +:+ nl;
              stdout_text p;
              nl +:+ nl +:+ "=== STDERR ===" +:+ nl;
              err_text p ])]
  ∧ (∀ app_ids b, ¬ writes_file (Install.run_winget_ps_install e app_ids b).1)
  ∧ ¬ writes_file (Upgrade.worker e).1.
Proof.
  intros Hex Hp. split; [|split; [|split]].
  - unfold Setup.run_winget_ps_setup. simpl.
    change (Setup.command (with_log_fault e fault)) with (Setup.command e).
    rewrite Hex, Hp. simpl. by destruct (returncode p =? 0)%Z.
  - unfold Setup.run_winget_ps_setup. simpl.
    change (Setup.command (with_log_fault e None)) with (Setup.command e).
    rewrite Hex, Hp. simpl. by destruct (returncode p =? 0)%Z.
  - intros app_ids b. apply no_write_no_file, install_no_write.
  - apply no_write_no_file, upgrade_no_write.
Qed.

Lemma log_written_by_setup_only_witness :
  (Setup.run_winget_ps_setup
     (with_log_fault (Install.env_with Setup.failed_setup) (Some 0%nat))).2
  = Raised (RuntimeError ("Access denied" +:+ nl +:+ nl +:+ "Details siehe Log-Datei:"
                          +:+ nl +:+ "C:\Tools\winget-setup.log")).
Proof.
  rewrite (proj1 (log_written_by_setup_only (Install.env_with Setup.failed_setup)
                    Setup.failed_setup (Some 0%nat) eq_refl eq_refl)).
  vm_compute. reflexivity.
Defined.

End LogClaims.

(** ** The version check of the primary tool *)
Section ProbeClaims.
Import Text Probe.

Lemma tuple_lt_triple (a b c x y z : N) :
  tuple_lt [a; b; c] [x; y; z] = true
  ↔ (a < x ∨ (a = x ∧ b < y) ∨ (a = x ∧ b = y ∧ c < z))%N.
Proof.
  simpl.
  destruct (N.eqb_spec a x), (N.eqb_spec b y), (N.eqb_spec c z);
    rewrite ?N.ltb_lt; try lia; split; try lia; try discriminate.
Qed.

Lemma int_of_digits_accepted s :
  int_accepts s = true → int_of_digits s = Some (int_go 0%N s).
Proof. unfold int_of_digits. by intros ->. Qed.

Lemma int_of_digits_refused s : int_accepts s = false → int_of_digits s = None.
Proof. unfold int_of_digits. by intros ->. Qed.

Lemma int_of_digits_Some s n :
  int_of_digits s = Some n → int_accepts s = true ∧ n = int_go 0%N s.
Proof. unfold int_of_digits. destruct (int_accepts s); [|done]. by intros [= <-]. Qed.

Lemma parse_version_triple text t :
  _parse_version text = Returned (Some t) → ∃ a b c, t = [a; b; c].
Proof.
  unfold _parse_version. destruct (Re.search_version text) as [[[d1 d2] d3]|]; [|done].
  destruct (int_of_digits d1), (int_of_digits d2), (int_of_digits d3); try done.
  intros [= <-]. eauto.
Qed.

(** A match all of whose groups [int] accepts is parsed to the triple of
    the numbers the groups denote. *)
Lemma parse_version_accepted text d1 d2 d3 :
  Re.search_version text = Some (d1, d2, d3) →
  digits_accepted text = true →
  _parse_version text = Returned (Some [int_go 0%N d1; int_go 0%N d2; int_go 0%N d3]).
Proof.
  unfold _parse_version, digits_accepted. intros ->.
  intros [[H1 H2]%andb_prop H3]%andb_prop.
  by rewrite !int_of_digits_accepted.
Qed.

(** A match one of whose groups [int] refuses makes the call raise. *)
Lemma parse_version_refused text :
  digits_accepted text = false → _parse_version text = Raised ValueError.
Proof.
  unfold _parse_version, digits_accepted.
  destruct (Re.search_version text) as [[[d1 d2] d3]|]; [|done].
  unfold int_of_digits.
  by destruct (int_accepts d1), (int_accepts d2), (int_accepts d3).
Qed.

(** The exception of [_parse_version] is not caught: the probe raises
    [ValueError] exactly when it ran, exited with code zero and printed
    a version one of whose numbers has more digits than [int] converts. *)
Lemma winget_probe_raises run exc :
  get_winget_state run = Raised exc
  ↔ exc = ValueError
    ∧ ∃ r, run = Some r ∧ returncode r = 0%Z
           ∧ digits_accepted (strip (stdout_text r +:+ err_text r)) = false.
Proof.
  unfold get_winget_state. destruct run as [r|].
  - destruct (Z.eqb_spec (returncode r) 0) as [Hrc|Hrc]; simpl negb; cbv iota.
    + destruct (digits_accepted (strip (stdout_text r +:+ err_text r))) eqn:Hd.
      * split; [|intros (_ & r' & [= <-] & _ & ?); congruence].
        unfold digits_accepted in Hd.
        destruct (Re.search_version _) as [[[d1 d2] d3]|] eqn:Hs.
        -- rewrite (parse_version_accepted _ _ _ _ Hs)
             by (unfold digits_accepted; by rewrite Hs).
           by destruct (tuple_lt _ _).
        -- unfold _parse_version. by rewrite Hs.
      * rewrite (parse_version_refused _ Hd). split.
        -- intros [= <-]. split; [done|]. by exists r.
        -- by intros [-> _].
    + split; [done|]. intros (_ & r' & [= <-] & ? & _). congruence.
  - split; [done|]. by intros (_ & r' & ? & _).
Qed.

(** C6: the output of a successful probe that holds a major.minor.patch
    pattern whose three numbers [int] converts is parsed to a triple,
    and the state is OUTDATED exactly when that triple is below 1.12.0
    in the lexicographic order on (major, minor, patch), and OK
    otherwise; the version reported is the triple printed. *)
Theorem winget_version_lexicographic r :
  returncode r = 0%Z →
  Re.contains_version (stdout_text r +:+ err_text r) →
  digits_accepted (strip (stdout_text r +:+ err_text r)) = true →
  ∃ a b c,
    _parse_version (strip (stdout_text r +:+ err_text r)) = Returned (Some [a; b; c])
    ∧ ((a < 1 ∨ (a = 1 ∧ b < 12) ∨ (a = 1 ∧ b = 12 ∧ c < 0))%N →
         get_winget_state (Some r)
         = Returned (OUTDATED, Some (join "." (pretty <$> [a; b; c]))))
    ∧ (¬ (a < 1 ∨ (a = 1 ∧ b < 12) ∨ (a = 1 ∧ b = 12 ∧ c < 0))%N →
         get_winget_state (Some r)
         = Returned (OK, Some (join "." (pretty <$> [a; b; c])))).
Proof.
  intros Hrc Hv Hd.
  apply contains_version_survives_strip, search_version_contains in Hv as [[[d1 d2] d3] Hg].
  pose proof (parse_version_accepted _ _ _ _ Hg Hd) as Hp.
  exists (int_go 0%N d1), (int_go 0%N d2), (int_go 0%N d3). split; [done|].
  unfold get_winget_state. rewrite Hrc, Hp. simpl negb. cbv iota.
  pose proof (tuple_lt_triple (int_go 0%N d1) (int_go 0%N d2) (int_go 0%N d3) 1 12 0) as Hlt.
  unfold MIN_WINGET_VERSION.
  destruct (tuple_lt _ [1; 12; 0]%N); split; intros H; try done.
  - exfalso. apply H, Hlt. done.
  - apply Hlt in H. done.
Qed.

Lemma winget_version_lexicographic_witness :
  get_winget_state (printed "v1.11.9") = Returned (OUTDATED, Some "1.11.9")
  ∧ get_winget_state (printed "v1.12.0") = Returned (OK, Some "1.12.0")
  ∧ get_winget_state (printed "v1.12.1") = Returned (OK, Some "1.12.1").
Proof.
  split; [|split].
  - destruct (winget_version_lexicographic
      {| out_lines := ["v1.11.9"]; err_text := ""; returncode := 0 |} eq_refl)
      as (a & b & c & Hp & Hlt & _).
    { by exists "v", "1", "11", "9", "". }
    { vm_compute. reflexivity. }
    vm_compute in Hp. injection Hp as <- <- <-. apply Hlt. lia.
  - destruct (winget_version_lexicographic
      {| out_lines := ["v1.12.0"]; err_text := ""; returncode := 0 |} eq_refl)
      as (a & b & c & Hp & _ & Hge).
    { by exists "v", "1", "12", "0", "". }
    { vm_compute. reflexivity. }
    vm_compute in Hp. injection Hp as <- <- <-. apply Hge. lia.
  - destruct (winget_version_lexicographic
      {| out_lines := ["v1.12.1"]; err_text := ""; returncode := 0 |} eq_refl)
      as (a & b & c & Hp & _ & Hge).
    { by exists "v", "1", "12", "1", "". }
    { vm_compute. reflexivity. }
    vm_compute in Hp. injection Hp as <- <- <-. apply Hge. lia.
Defined.

(** C7: a probe that ran and exited with code zero, but whose combined
    output holds no major.minor.patch pattern, gives OK with the
    stripped output as the version string, or with none when that is
    empty; a probe that could not run, or exited with another code,
    gives MISSING. *)
Theorem winget_unparsable_is_ok r :
  returncode r = 0%Z →
  ¬ Re.contains_version (stdout_text r +:+ err_text r) →
  get_winget_state (Some r)
  = Returned (OK, if is_empty (strip (stdout_text r +:+ err_text r)) then None
                  else Some (strip (stdout_text r +:+ err_text r)))
  ∧ get_winget_state None = Returned (MISSING, None)
  ∧ (∀ r', returncode r' ≠ 0%Z → get_winget_state (Some r') = Returned (MISSING, None)).
Proof.
  intros Hrc Hv. split; [|split; [done|]].
  - assert (Re.search_version (strip (stdout_text r +:+ err_text r)) = None) as Hnone.
    { apply search_version_none. intros H. by apply Hv, contains_version_strip. }
    unfold get_winget_state, _parse_version. by rewrite Hrc, Hnone.
  - intros r' Hrc'. unfold get_winget_state.
    apply Z.eqb_neq in Hrc'. by rewrite Hrc'.
Qed.

Lemma winget_unparsable_is_ok_witness :
  get_winget_state (Some {| out_lines := [ln " winget preview 12.5 "];
                            err_text := ""; returncode := 0 |})
  = Returned (OK, Some "winget preview 12.5").
Proof.
  refine (proj1 (winget_unparsable_is_ok
    {| out_lines := [ln " winget preview 12.5 "]; err_text := ""; returncode := 0 |}
    eq_refl _)).
  intros H. apply search_version_contains in H as [g Hg].
  vm_compute in Hg. discriminate.
Defined.

End ProbeClaims.

(** ** The primitives on sample inputs *)
Section Samples.
Import Text.

Example strip_both_ends : strip "  a b " = "a b".
Proof. reflexivity. Qed.

Example split_keeps_empty_fields : split ","%char "a, b,,c" = ["a"; " b"; ""; "c"].
Proof. reflexivity. Qed.

Example splitlines_crlf_is_one_break :
  splitlines ("a" +:+ String "013" (String "010" "b")) = ["a"; "b"].
Proof. reflexivity. Qed.

Example marker_found_inside_line :
  Re.search_marker "FAILED_APPS:" "xx FAILED_APPS:  a, b" = Some "a, b".
Proof. reflexivity. Qed.

Example marker_blank_tail : Re.search_marker "FAILED_APPS:" "FAILED_APPS:  " = Some " ".
Proof. reflexivity. Qed.

Example marker_needs_a_tail : Re.search_marker "FAILED_APPS:" "FAILED_APPS:" = None.
Proof. reflexivity. Qed.

Example version_leftmost_match :
  Re.search_version "v1.2x13.4.05 z" = Some ("13", "4", "05").
Proof. reflexivity. Qed.

Example version_string_normalised :
  Probe.get_winget_state (Probe.printed "v01.011.9-preview")
  = Returned (Probe.OUTDATED, Some "1.11.9").
Proof. vm_compute. reflexivity. Qed.

Example version_too_long_raises :
  String.length Vectors.long_number = 4301%nat
  ∧ Probe.get_winget_state (Probe.printed ("v1.2." +:+ Vectors.long_number))
    = Raised ValueError
  ∧ Deps._check_dependencies_worker (Deps.echo_all ("v1.2." +:+ Vectors.long_number))
    = Raised ValueError.
Proof. split; [|split]; vm_compute; reflexivity. Qed.

Example blank_failed_list_raises :
  (Install.run_winget_ps_install
     (Install.env_with {| out_lines := [ln "FAILED_APPS: , "]; err_text := "boom";
                          returncode := 1 |}) ["a"] false).2
  = Raised (RuntimeError ("Winget-Installation ist fehlgeschlagen:" +:+ nl +:+ "boom")).
Proof. vm_compute. reflexivity. Qed.

Example missing_script_raises :
  Install.run_winget_ps_install
    (with_log_fault {| exe_dir := "C:\T"; ps1_path := "C:\T\s.ps1"; ps1_exists := false;
                       popen := λ _, None; log_fault := None |} None) ["a"] true
  = ([FxExists "C:\T\s.ps1"],
     Raised (FileNotFoundError "Winget-Installscript nicht gefunden: C:\T\s.ps1")).
Proof. reflexivity. Qed.

Example upgrade_block_only :
  Upgrade.updated (Upgrade.summary_of
    ["UPDATED_APP: x|y"; "UPGRADE_SUMMARY_BEGIN"; "UPDATED_APP: a | b.c |1"; "";
     "NOT_UPDATED_APP: n|m|1|2|3"; "UPGRADE_SUMMARY_END"; "UPDATED_APP: z"])
  = [("a", "b.c", "1", "")].
Proof. vm_compute. reflexivity. Qed.

Example upgrade_none_report :
  (Upgrade.worker (Install.env_with
     {| out_lines := [ln "UPGRADE_SUMMARY_BEGIN"; ln "UPGRADE_NONE"; ln "UPGRADE_SUMMARY_END"];
        err_text := ""; returncode := 0 |})).2
  = Returned ({| Upgrade.updated := []; Upgrade.not_updated := [];
                 Upgrade.inside := false; Upgrade.had_none := true |},
              Upgrade.NothingToUpgrade).
Proof. vm_compute. reflexivity. Qed.

End Samples.

(** ** Further properties of the install call *)
Section InstallMore.
Import Text Install Trace.

Lemma omap_app_list {A B} (f : A → option B) (l1 l2 : list A) :
  omap f (l1 ++ l2) = omap f l1 ++ omap f l2.
Proof. apply omap_app. Qed.

Lemma loop_snd_cons b st raw rest :
  (loop b st (raw :: rest)).2
  = (loop_body b st raw).2 ++ (loop b (loop_body b st raw).1 rest).2.
Proof.
  simpl. destruct (loop_body b st raw) as [st1 fx1]. simpl.
  by destruct (loop b st1 rest).
Qed.

Lemma loop_body_events st raw :
  line_events (loop_body true st raw).2 = [rstrip_crlf raw]
  ∧ ok_events (loop_body true st raw).2 = option_list (ok_marker raw)
  ∧ start_events (loop_body true st raw).2 = option_list (start_marker raw)
  ∧ popen_calls (loop_body true st raw).2 = []
  ∧ (loop_body false st raw).2 = []
  ∧ (loop_body false st raw).1 = (loop_body true st raw).1.
Proof.
  unfold loop_body, ok_marker, start_marker.
  destruct (re_start (rstrip_crlf raw)); [done|].
  destruct (re_ok (rstrip_crlf raw)); [done|].
  by destruct (re_failed (rstrip_crlf raw)).
Qed.

Lemma loop_events lines : ∀ st,
  line_events (loop true st lines).2 = rstrip_crlf <$> lines
  ∧ ok_events (loop true st lines).2 = ok_ids lines
  ∧ start_events (loop true st lines).2 = omap start_marker lines
  ∧ popen_calls (loop true st lines).2 = []
  ∧ (loop false st lines).2 = []
  ∧ (loop false st lines).1 = (loop true st lines).1.
Proof.
  induction lines as [|raw rest IH]; intros st; [done|].
  rewrite !loop_snd_cons, !loop_cons.
  destruct (loop_body_events st raw) as (Hl & Ho & Hs & Hp & Hn & Hst).
  rewrite Hst, Hn.
  destruct (IH (loop_body true st raw).1) as (Il & Io & Is & Ip & In' & Ist).
  rewrite In', Ist.
  unfold line_events, ok_events, start_events, popen_calls in *.
  rewrite !omap_app_list, Hl, Ho, Hs, Hp, Il, Io, Is, Ip.
  unfold ok_ids. simpl.
  repeat split; try done.
  - by destruct (ok_marker raw).
  - by destruct (start_marker raw).
Qed.

(** X1: the install call hands a command to [subprocess.Popen] exactly
    when at least one id is requested and the script file exists; it
    does so once, with the requested ids as the trailing arguments in
    request order.  Whether a process then runs is up to the launch:
    when it fails, the call raises [OSError] after the look for the
    script and the one call of [Popen], and delivers no event. *)
Theorem install_popen_called_iff e app_ids b :
  (popen_calls (run_winget_ps_install e app_ids b).1 ≠ []
   ↔ app_ids ≠ [] ∧ ps1_exists e = true)
  ∧ (popen_calls (run_winget_ps_install e app_ids b).1 = []
     ∨ popen_calls (run_winget_ps_install e app_ids b).1
       = [["powershell.exe"; "-NoLogo"; "-NoProfile"; "-ExecutionPolicy"; "Bypass";
           "-File"; ps1_path e] ++ app_ids])
  ∧ (app_ids ≠ [] → ps1_exists e = true → popen e (command e app_ids) = None →
     run_winget_ps_install e app_ids b
     = ([FxExists (ps1_path e); FxPopen (command e app_ids)], Raised OSError)).
Proof.
  unfold run_winget_ps_install.
  destruct app_ids as [|i ids]; simpl;
    [split; [split; [done|by intros [? _]]|split; [by left|done]]|].
  destruct (ps1_exists e); simpl;
    [|split; [split; [done|by intros [_ ?]]|split; [by left|done]]].
  destruct (popen e _) as [proc|]; simpl.
  - destruct (loop_events (out_lines proc) loop_init) as (_ & _ & _ & Hp & Hn & _).
    destruct b.
    + destruct (loop true loop_init (out_lines proc)) as [st fx]. simpl in *.
      unfold popen_calls in *. simpl. rewrite Hp. split; [done|split; [by right|done]].
    + destruct (loop false loop_init (out_lines proc)) as [st fx]. simpl in *.
      subst fx. split; [done|split; [by right|done]].
  - split; [done|split; [by right|done]].
Qed.

(** X2: once the process has started, the outcome is decided by three
    things only: the exit code, the ids some line marked Ok and the list
    the last FAILED_APPS line set.  The call raises exactly when the
    exit code is not zero and both are empty; otherwise it returns these
    two lists, so an exit code of zero never raises. *)
Theorem install_outcome_by_cases e app_ids b proc :
  app_ids ≠ [] → ps1_exists e = true →
  popen e (command e app_ids) = Some proc →
  (run_winget_ps_install e app_ids b).2
  = if decide (returncode proc ≠ 0%Z ∧ ok_ids (out_lines proc) = []
               ∧ last_failed (out_lines proc) = [])
    then Raised (RuntimeError (failure_message (err_text proc)))
    else Returned (ok_ids (out_lines proc), last_failed (out_lines proc)).
Proof.
  intros Hne Hex Hp. rewrite (run_launched _ _ _ _ Hne Hex Hp).
  unfold reconcile. simpl.
  destruct (Z.eqb_spec (returncode proc) 0) as [Hz|Hz];
    destruct (last_failed (out_lines proc)) as [|f fs];
    destruct (ok_ids (out_lines proc)) as [|o os]; simpl;
    case_decide as Hd; try done; try (by destruct Hd as (? & ? & ?)).
  exfalso. by apply Hd.
Qed.

Lemma install_outcome_by_cases_witness :
  (run_winget_ps_install (env_with Vectors.unmarked_run) ["A.App"] true).2
  = Returned ([], []).
Proof.
  exact (install_outcome_by_cases (env_with Vectors.unmarked_run) ["A.App"] true
           Vectors.unmarked_run ltac:(discriminate) eq_refl eq_refl).
Defined.

Lemma install_events_launched e app_ids proc :
  app_ids ≠ [] → ps1_exists e = true →
  popen e (command e app_ids) = Some proc →
  line_events (run_winget_ps_install e app_ids true).1 = rstrip_crlf <$> out_lines proc
  ∧ ok_events (run_winget_ps_install e app_ids true).1 = ok_ids (out_lines proc)
  ∧ start_events (run_winget_ps_install e app_ids true).1
    = omap start_marker (out_lines proc).
Proof.
  intros Hne Hex Hp. unfold run_winget_ps_install.
  apply nonempty_true in Hne. rewrite Hne, Hex, Hp. simpl.
  destruct (loop_events (out_lines proc) loop_init) as (Hl & Ho & Hs & _).
  by destruct (loop true loop_init (out_lines proc)) as [st fx].
Qed.

(** X3: with a callback, every line of the stream is delivered as a line
    event, stripped of its line end, in stream order; the ok events
    delivered are exactly the ids of the succeeded list, and the start
    events the ids of the start lines. *)
Theorem install_events_follow_stream e app_ids proc :
  app_ids ≠ [] → ps1_exists e = true →
  popen e (command e app_ids) = Some proc →
  line_events (run_winget_ps_install e app_ids true).1 = rstrip_crlf <$> out_lines proc
  ∧ ok_events (run_winget_ps_install e app_ids true).1 = ok_ids (out_lines proc)
  ∧ start_events (run_winget_ps_install e app_ids true).1
    = omap start_marker (out_lines proc)
  ∧ (∀ s f, (run_winget_ps_install e app_ids true).2 = Returned (s, f) →
       ok_events (run_winget_ps_install e app_ids true).1 = s).
Proof.
  intros Hne Hex Hp.
  destruct (install_events_launched e app_ids proc Hne Hex Hp) as (Hl & Ho & Hs).
  repeat split; try done.
  intros s f Hret. rewrite (run_launched _ _ _ _ Hne Hex Hp) in Hret.
  apply reconcile_returned in Hret as [-> _]. by rewrite Ho.
Qed.

Lemma install_events_follow_stream_witness :
  line_events (run_winget_ps_install (env_with partial_run) ["A.App"; "B.App"] true).1
  = ["Installing app via winget: A.App"; "App installed successfully: A.App";
     "Installing app via winget: B.App"].
Proof.
  exact (proj1 (install_events_follow_stream (env_with partial_run) ["A.App"; "B.App"]
    partial_run ltac:(discriminate) eq_refl eq_refl)).
Defined.








(** On the run that marks [c] and [d] installed, a callback that raises
    on the event [ok] of [d] gets the four events up to it, and the
    call ends with its exception; the last line is never read. *)
Example install_callback_raises :
  run_winget_ps_install_cb (env_with failed_after_ok) ["a"; "b"; "c"; "d"]
    (Some (refuses_ok "d"))
  = ([FxExists "C:\Tools\winget-installscript.ps1";
      FxPopen (command (env_with failed_after_ok) ["a"; "b"; "c"; "d"]);
      FxEvent (EvLine "App installed successfully: c"); FxEvent (EvOk "c");
      FxEvent (EvLine "App installed successfully: d"); FxEvent (EvOk "d")],
     Raised (RuntimeError "stop")).
Proof. vm_compute. reflexivity. Qed.

End InstallMore.

(** ** What stripping and splitting guarantee *)
Section StripFacts.
Import Text Install Trace.

Lemma rstrip_idem s : rstrip (rstrip s) = rstrip s.
Proof.
  induction s as [|c s IH]; [done|]. simpl.
  destruct (is_empty (rstrip s) && isspace c) eqn:E; [done|].
  simpl. by rewrite IH, E.
Qed.

Lemma rstrip_keeps_head c r :
  isspace c = false → rstrip (String c r) = String c (rstrip r).
Proof. intros Hc. simpl. by rewrite Hc, andb_false_r. Qed.

Lemma lstrip_head s :
  lstrip s = "" ∨ ∃ c r, lstrip s = String c r ∧ isspace c = false.
Proof.
  induction s as [|c s IH]; [by left|]. simpl.
  destruct (isspace c) eqn:E; [done|]. right. eauto.
Qed.

Lemma strip_idem s : strip (strip s) = strip s.
Proof.
  unfold strip. destruct (lstrip_head s) as [->|(c & r & -> & Hc)]; [done|].
  rewrite (rstrip_keeps_head _ _ Hc). simpl lstrip. rewrite Hc.
  rewrite (rstrip_keeps_head _ _ Hc). by rewrite rstrip_idem.
Qed.

Lemma has_char_app c a b : has_char c (a +:+ b) = has_char c a || has_char c b.
Proof.
  induction a as [|x a IH]; [done|].
  rewrite str_app_cons. simpl. by rewrite IH, orb_assoc.
Qed.

Lemma strip_no_char c s : has_char c s = false → has_char c (strip s) = false.
Proof.
  intros H. unfold strip.
  destruct (lstrip_suffix s) as [a Ha], (rstrip_prefix (lstrip s)) as [b Hb].
  rewrite Ha, Hb, !has_char_app in H.
  by apply orb_false_iff in H as [_ [? _]%orb_false_iff].
Qed.

Lemma split_no_sep sep s : Forall (λ p, has_char sep p = false) (split sep s).
Proof.
  induction s as [|c s IH]; [by repeat constructor|]. simpl.
  destruct (Ascii.eqb c sep) eqn:E; [by constructor|].
  destruct (split sep s) as [|f fs]; [by repeat constructor; simpl; rewrite E|].
  apply Forall_cons in IH as [Hf Hfs]. constructor; [|done].
  simpl. by rewrite E.
Qed.

Lemma split_ids_clean tail :
  Forall (λ id, id ≠ "" ∧ strip id = id ∧ has_char "," id = false) (split_ids tail).
Proof.
  unfold split_ids. apply Forall_forall. intros id Hin.
  apply list_elem_of_filter in Hin as [Hne Hin].
  apply list_elem_of_fmap in Hin as (p & -> & Hp).
  split; [by apply is_empty_false|]. split; [apply strip_idem|].
  apply strip_no_char.
  by apply (proj1 (Forall_forall _ _) (split_no_sep ","%char tail)).
Qed.

(** X5: the ids of a returned result are clean: every succeeded id is
    free of blanks at both ends, and every failed id is, besides, not
    empty and free of commas. *)
Theorem install_result_ids_clean e app_ids b proc s f :
  app_ids ≠ [] → ps1_exists e = true →
  popen e (command e app_ids) = Some proc →
  (run_winget_ps_install e app_ids b).2 = Returned (s, f) →
  Forall (λ id, strip id = id) s
  ∧ Forall (λ id, id ≠ "" ∧ strip id = id ∧ has_char "," id = false) f.
Proof.
  intros Hne Hex Hp Hrun.
  rewrite (run_launched _ _ _ _ Hne Hex Hp) in Hrun.
  apply reconcile_returned in Hrun as [-> ->]. simpl. split.
  - apply Forall_forall. intros id Hin.
    apply list_elem_of_omap in Hin as (raw & _ & Hm).
    unfold ok_marker in Hm. destruct (re_start _); [done|].
    destruct (re_ok _) as [g|]; [|done]. injection Hm as <-. apply strip_idem.
  - unfold last_failed.
    destruct (last (omap failed_marker (out_lines proc))) as [fl|] eqn:El; [|by constructor].
    apply last_Some_elem_of, list_elem_of_omap in El as (raw & _ & Hm).
    unfold failed_marker in Hm. destruct (re_start _); [done|].
    destruct (re_ok _); [done|]. destruct (re_failed _) as [g|]; [|done].
    injection Hm as <-. apply split_ids_clean.
Qed.

Lemma install_result_ids_clean_witness :
  Forall (λ id, strip id = id) ["c"; "d"]
  ∧ Forall (λ id, id ≠ "" ∧ strip id = id ∧ has_char "," id = false) ["a"; "b"].
Proof.
  apply (install_result_ids_clean (env_with failed_after_ok) ["a"; "b"; "c"; "d"] true
           failed_after_ok); [discriminate|reflexivity|reflexivity|].
  vm_compute. reflexivity.
Defined.

End StripFacts.

(** ** Further properties of the setup call *)
Section SetupMore.
Import Text Setup Trace.

Lemma concat_take_prefix (chunks : list string) k :
  ∃ rest, foldr String.app "" chunks = foldr String.app "" (take k chunks) +:+ rest.
Proof.
  exists (foldr String.app "" (drop k chunks)).
  rewrite <-(take_drop k chunks) at 1.
  generalize (take k chunks) (drop k chunks). intros l1 l2.
  induction l1 as [|x l1 IH]; [done|]. simpl. by rewrite IH, str_app_assoc.
Qed.

(** X6: a setup run that exits with a code other than zero raises a
    runtime error whose text is a body followed by the pointer to the
    log file.  The body is the stripped standard error if that is not
    blank, else the stripped standard output if that is not blank, else
    the text with the exit code; it is never empty. *)
Theorem setup_failure_message e p :
  ps1_exists e = true → popen e (command e) = Some p → returncode p ≠ 0%Z →
  ∃ body,
    (run_winget_ps_setup e).2
    = Raised (RuntimeError (body +:+ nl +:+ nl +:+ "Details siehe Log-Datei:" +:+ nl
                            +:+ exe_dir e +:+ "\winget-setup.log"))
    ∧ body ≠ ""
    ∧ (strip (err_text p) ≠ "" → body = strip (err_text p))
    ∧ (strip (err_text p) = "" → strip (stdout_text p) ≠ "" →
         body = strip (stdout_text p))
    ∧ (strip (err_text p) = "" → strip (stdout_text p) = "" →
         body = "Winget-Setup Fehlercode " +:+ pretty (returncode p)).
Proof.
  intros Hex Hp Hrc. apply Z.eqb_neq in Hrc.
  exists (str_or (strip (err_text p))
            (str_or (strip (stdout_text p))
               ("Winget-Setup Fehlercode " +:+ pretty (returncode p)))).
  split; [|split].
  - unfold run_winget_ps_setup. rewrite Hex, Hp. simpl. by rewrite Hrc.
  - unfold str_or. destruct (strip (err_text p)); [|done].
    simpl. by destruct (strip (stdout_text p)).
  - unfold str_or. repeat split.
    + intros H. by apply is_empty_false in H as ->.
    + intros -> H. simpl. by apply is_empty_false in H as ->.
    + by intros -> ->.
Qed.

Lemma setup_failure_message_witness :
  (run_winget_ps_setup (Install.env_with Vectors.stdout_only_failure)).2
  = Raised (RuntimeError ("only stdout" +:+ nl +:+ nl +:+ "Details siehe Log-Datei:" +:+ nl
                          +:+ "C:\Tools\winget-setup.log")).
Proof.
  destruct (setup_failure_message (Install.env_with Vectors.stdout_only_failure)
              Vectors.stdout_only_failure eq_refl eq_refl ltac:(discriminate))
    as (body & Hrun & _ & _ & Hout & _).
  rewrite Hrun, (Hout eq_refl ltac:(discriminate)). reflexivity.
Defined.

Lemma setup_written e :
  written (run_winget_ps_setup e).1
  = if ps1_exists e then
      match popen e (command e) with
      | Some p => match write_log (log_fault e) (log_chunks e p) with
                  | Some c => [(log_path e, c)]
                  | None => []
                  end
      | None => []
      end
    else [].
Proof.
  unfold run_winget_ps_setup.
  destruct (ps1_exists e); [|done]. simpl negb. cbv iota.
  destruct (popen e (command e)) as [p|]; [|done].
  destruct (negb (returncode p =? 0)%Z); simpl; unfold log_effects;
    by destruct (write_log (log_fault e) (log_chunks e p)).
Qed.

(** X7: the setup call writes at most one file, the log beside the
    executable, and only after the script has run; whatever goes wrong
    while writing, what is in the file is a beginning of the complete
    log.  Without the script, or when the process cannot be started,
    nothing is written. *)
Theorem setup_writes_only_a_log_prefix e path content :
  (path, content) ∈ written (run_winget_ps_setup e).1 →
  written (run_winget_ps_setup e).1 = [(path, content)]
  ∧ path = exe_dir e +:+ "\winget-setup.log"
  ∧ ps1_exists e = true
  ∧ ∃ p rest, popen e (command e) = Some p
              ∧ foldr String.app "" (log_chunks e p) = content +:+ rest.
Proof.
  rewrite setup_written.
  destruct (ps1_exists e); [|by intros ?%elem_of_nil].
  destruct (popen e (command e)) as [p|]; [|by intros ?%elem_of_nil].
  destruct (write_log (log_fault e) (log_chunks e p)) as [c|] eqn:Ew;
    [|by intros ?%elem_of_nil].
  intros [= -> ->]%list_elem_of_singleton.
  split; [done|split; [done|split; [done|]]]. exists p.
  unfold write_log in Ew. destruct (log_fault e) as [[|k]|]; simplify_eq.
  - destruct (concat_take_prefix (log_chunks e p) k) as [rest Hrest]. by exists rest.
  - exists "". by rewrite str_app_nil_r.
Qed.

Lemma setup_writes_only_a_log_prefix_witness :
  written (run_winget_ps_setup
             (with_log_fault (Install.env_with failed_setup) (Some 2%nat))).1
  = [("C:\Tools\winget-setup.log",
      "Command : powershell.exe -NoLogo -NoProfile -ExecutionPolicy Bypass -File "
      +:+ "C:\Tools\winget-installscript.ps1 -SetupWinget" +:+ nl)].
Proof.
  refine (proj1 (setup_writes_only_a_log_prefix
    (with_log_fault (Install.env_with failed_setup) (Some 2%nat)) _ _ _)).
  vm_compute. apply list_elem_of_here.
Defined.

End SetupMore.

(** ** Further properties of the upgrade worker *)
Section UpgradeMore.
Import Text Upgrade Trace.

Lemma worker_launched e proc :
  popen e (command e) = Some proc →
  (worker e).2 = Returned (summary_of (out_lines proc),
                           finish (summary_of (out_lines proc)) (returncode proc))
  ∧ statuses (worker e).1 = statuses (collect (out_lines proc)).2.
Proof.
  intros Hp. unfold worker, summary_of. rewrite Hp.
  by destruct (collect (out_lines proc)).
Qed.

(** X8: a stream without the opening sentinel gives the empty summary,
    whatever else its lines say, and the worker then reports the
    fallback that carries the exit code. *)
Theorem upgrade_without_begin_is_empty e proc :
  popen e (command e) = Some proc →
  Forall (λ raw, rstrip_crlf raw ≠ "UPGRADE_SUMMARY_BEGIN") (out_lines proc) →
  (worker e).2 = Returned (summary_init, NoSummary (returncode proc)).
Proof.
  intros Hp Hall. rewrite (proj1 (worker_launched e proc Hp)).
  assert (summary_of (out_lines proc) = summary_init) as ->; [|done].
  unfold summary_of, parse_summary. apply foldl_outside; [done|].
  by apply (collect_Forall (λ l, l ≠ "UPGRADE_SUMMARY_BEGIN")).
Qed.

Lemma upgrade_without_begin_is_empty_witness :
  (worker (Install.env_with Vectors.no_begin_run)).2
  = Returned (summary_init, NoSummary 7).
Proof.
  apply (upgrade_without_begin_is_empty (Install.env_with Vectors.no_begin_run)
           Vectors.no_begin_run eq_refl).
  repeat constructor; vm_compute; discriminate.
Defined.

(** X9: once the process has started the worker always comes back with
    a report, whatever the exit code.  The report is "nothing to
    upgrade" exactly when UPGRADE_NONE was seen and no record was read;
    as soon as one record was read it is the count of updated records
    out of all records, marked clean exactly when the exit code is zero;
    otherwise it is the fallback carrying the exit code. *)
Theorem upgrade_report_cases e proc :
  popen e (command e) = Some proc →
  ∃ st rep,
    (worker e).2 = Returned (st, rep)
    ∧ st = summary_of (out_lines proc)
    ∧ (rep = NothingToUpgrade
       ↔ had_none st = true ∧ updated st = [] ∧ not_updated st = [])
    ∧ (updated st ≠ [] ∨ not_updated st ≠ [] →
       rep = Counted (returncode proc =? 0)%Z (length (updated st))
                     (length (updated st) + length (not_updated st)))
    ∧ (had_none st = false → updated st = [] → not_updated st = [] →
       rep = NoSummary (returncode proc)).
Proof.
  intros Hp. eexists _, _. split; [apply (worker_launched e proc Hp)|].
  split; [done|].
  generalize (summary_of (out_lines proc)). intros [u n i h]. unfold finish. simpl.
  destruct u as [|x u], n as [|y n], h; simpl; repeat split; try done;
    try (by intros (? & ? & ?)); try (by intros [?|?]).
Qed.

Lemma upgrade_report_cases_witness :
  (worker (Install.env_with Vectors.mixed_run)).2
  = Returned ({| updated := [("a", "b", "1", "2")]; not_updated := [("c", "d", "", "")];
                 inside := false; had_none := true |},
              Counted false 1 2).
Proof.
  destruct (upgrade_report_cases (Install.env_with Vectors.mixed_run) Vectors.mixed_run eq_refl)
    as (st & rep & Hrun & Hst & _ & Hcount & _).
  rewrite Hrun. vm_compute in Hst. subst st. rewrite Hcount; [reflexivity|].
  left. discriminate.
Defined.

Lemma summary_step_restart st line :
  let st0 := {| updated := []; not_updated := []; inside := inside st; had_none := false |} in
  updated (summary_step st line) = updated st ++ updated (summary_step st0 line)
  ∧ not_updated (summary_step st line) = not_updated st ++ not_updated (summary_step st0 line)
  ∧ inside (summary_step st line) = inside (summary_step st0 line)
  ∧ had_none (summary_step st line) = had_none st || had_none (summary_step st0 line).
Proof.
  destruct st as [u n i h]. unfold summary_step. cbn [updated not_updated inside had_none].
  destruct (String.eqb line "UPGRADE_SUMMARY_BEGIN");
    [simpl; by rewrite !app_nil_r, orb_false_r|].
  destruct (String.eqb line "UPGRADE_SUMMARY_END");
    [simpl; by rewrite !app_nil_r, orb_false_r|].
  destruct i; simpl negb; cbv iota; [|simpl; by rewrite !app_nil_r, orb_false_r].
  destruct (String.eqb line "UPGRADE_NONE");
    [simpl; by rewrite !app_nil_r, orb_true_r|].
  destruct (strip_prefix "UPDATED_APP: " line);
    [simpl; by rewrite !app_nil_r, orb_false_r|].
  destruct (strip_prefix "NOT_UPDATED_APP: " line);
    simpl; by rewrite !app_nil_r, orb_false_r.
Qed.

Lemma foldl_restart lines : ∀ st,
  let st0 := {| updated := []; not_updated := []; inside := inside st; had_none := false |} in
  updated (foldl summary_step st lines)
  = updated st ++ updated (foldl summary_step st0 lines)
  ∧ not_updated (foldl summary_step st lines)
    = not_updated st ++ not_updated (foldl summary_step st0 lines)
  ∧ inside (foldl summary_step st lines) = inside (foldl summary_step st0 lines)
  ∧ had_none (foldl summary_step st lines)
    = had_none st || had_none (foldl summary_step st0 lines).
Proof.
  induction lines as [|l lines IH]; intros st; cbv zeta.
  - simpl. by rewrite !app_nil_r, orb_false_r.
  - cbn [foldl].
    destruct (summary_step_restart st l) as (Su & Sn & Si & Sh).
    destruct (IH (summary_step st l)) as (Iu & In' & Ii & Ih).
    destruct (IH (summary_step {| updated := []; not_updated := [];
                                  inside := inside st; had_none := false |} l))
      as (Ju & Jn & Ji & Jh).
    rewrite Iu, In', Ii, Ih, Ju, Jn, Ji, Jh, Su, Sn, Sh, Si.
    simpl. by rewrite <-!app_assoc, <-!orb_assoc.
Qed.

Lemma summary_entries_flags entries : ∀ st, inside st = true →
  inside (foldl summary_step st (entry_line <$> entries)) = true.
Proof.
  induction entries as [|[[] payload] entries IH]; intros st Hin; [done|..];
    rewrite fmap_cons; cbn [foldl]; unfold entry_line at 1; cbn [fst snd];
    [rewrite summary_step_updated by done|rewrite summary_step_not_updated by done];
    by apply IH.
Qed.

Lemma collect_entries raws entries :
  Forall2 (λ raw entry, rstrip_crlf raw = entry_line entry) raws entries →
  (collect raws).1 = entry_line <$> entries.
Proof.
  induction 1 as [|raw entry raws entries Hr _ IH]; [done|].
  cbn [collect]. destruct (collect raws) as [ls fx]. simpl in IH. subst ls.
  rewrite Hr. by destruct entry as [[] payload].
Qed.

(** C9: in the stream of an upgrade run, lines [UPDATED_APP: payload]
    and [NOT_UPDATED_APP: payload] read while the parser is inside the
    block append, in line order, to the updated and to the not-updated
    list of the summary the worker returns: each the record made of the
    first four fields of its payload split at the bar, each stripped, a
    missing field being empty.  The lists of the summary are what the
    stream before those lines gave, then these records, then what the
    rest of the stream adds, read from inside the block. *)
Theorem summary_entry_appended e proc pre raws entries post :
  popen e (command e) = Some proc →
  out_lines proc = pre ++ raws ++ post →
  inside (summary_of pre) = true →
  Forall2 (λ raw entry, rstrip_crlf raw = entry_line entry) raws entries →
  let fields := λ payload,
    let parts := strip <$> split "|"%char payload in
    (nth 0 parts "", nth 1 parts "", nth 2 parts "", nth 3 parts "") in
  ∃ st rep,
    (worker e).2 = Returned (st, rep)
    ∧ st = parse_summary (collect (out_lines proc)).1
    ∧ updated st
      = updated (summary_of pre)
        ++ (fields ∘ snd <$> filter (λ x, x.1 = true) entries)
        ++ updated (summary_of (ln "UPGRADE_SUMMARY_BEGIN" :: post))
    ∧ not_updated st
      = not_updated (summary_of pre)
        ++ (fields ∘ snd <$> filter (λ x, x.1 = false) entries)
        ++ not_updated (summary_of (ln "UPGRADE_SUMMARY_BEGIN" :: post)).
Proof.
  intros Hp Hlines Hin Hall. cbv zeta.
  destruct (worker_launched e proc Hp) as [Hw _].
  eexists _, _. split; [exact Hw|]. split; [done|].
  rewrite Hlines. unfold summary_of, parse_summary in *.
  rewrite !collect_app, !foldl_app, (collect_entries _ _ Hall).
  set (st0 := foldl summary_step summary_init (collect pre).1) in *.
  destruct (summary_entries entries st0 Hin) as [Hu Hn].
  pose proof (summary_entries_flags entries st0 Hin) as Hi.
  destruct (foldl_restart (collect post).1
              (foldl summary_step st0 (entry_line <$> entries))) as (Ru & Rn & _ & _).
  rewrite Hi in Ru, Rn. rewrite Ru, Rn, Hu, Hn.
  change (ln "UPGRADE_SUMMARY_BEGIN" :: post)
    with ([ln "UPGRADE_SUMMARY_BEGIN"] ++ post).
  rewrite (collect_app [ln "UPGRADE_SUMMARY_BEGIN"] post).
  change (collect [ln "UPGRADE_SUMMARY_BEGIN"]).1 with ["UPGRADE_SUMMARY_BEGIN"].
  by rewrite <-!app_assoc.
Qed.

Lemma summary_entry_appended_witness :
  ∃ st rep,
    (worker (Install.env_with block_run)).2 = Returned (st, rep)
    ∧ updated st = [("Mozilla Firefox", "Mozilla.Firefox", "120.0", "");
                    ("7-Zip", "7zip.7zip", "23.01", "24.00")]
    ∧ not_updated st = [("Git", "Git.Git", "2.43", "2.44")].
Proof.
  destruct (summary_entry_appended (Install.env_with block_run) block_run
              block_head block_entries
              [(true, " Mozilla Firefox | Mozilla.Firefox |120.0");
               (false, "Git|Git.Git|2.43|2.44|pinned");
               (true, "7-Zip|7zip.7zip|23.01|24.00")]
              block_tail eq_refl eq_refl eq_refl)
    as (st & rep & Hw & _ & Hu & Hn).
  { repeat constructor. }
  exists st, rep. split; [exact Hw|]. split; [exact Hu|exact Hn].
Defined.

(** X10: summaries add up.  When the first part of a stream ends
    outside a block, the summary of the whole stream has the records of
    the first part followed by those of the second, in both lists, and
    has seen UPGRADE_NONE when either part has. *)
Theorem summary_blocks_accumulate a b :
  inside (summary_of a) = false →
  summary_of (a ++ b)
  = {| updated := updated (summary_of a) ++ updated (summary_of b);
       not_updated := not_updated (summary_of a) ++ not_updated (summary_of b);
       inside := inside (summary_of b);
       had_none := had_none (summary_of a) || had_none (summary_of b) |}.
Proof.
  intros Hin. unfold summary_of, parse_summary in *.
  rewrite collect_app, foldl_app.
  destruct (foldl_restart (collect b).1 (foldl summary_step summary_init (collect a).1))
    as (Hu & Hn & Hi & Hh).
  rewrite Hin in *.
  change {| updated := []; not_updated := []; inside := false; had_none := false |}
    with summary_init in *.
  destruct (foldl summary_step (foldl summary_step summary_init (collect a).1) (collect b).1).
  simpl in *. by subst.
Qed.

Lemma summary_blocks_accumulate_witness :
  summary_of (first_block ++ second_block)
  = {| updated := [("a", "b", "1", "2")]; not_updated := [("c", "d", "", "")];
       inside := false; had_none := false |}.
Proof. exact (summary_blocks_accumulate first_block second_block eq_refl). Defined.

Lemma split_no_sep_id sep s : has_char sep s = false → split sep s = [s].
Proof.
  induction s as [|c s IH]; [done|]. simpl.
  intros [Hc Hs]%orb_false_iff. by rewrite Hc, (IH Hs).
Qed.

Lemma split_app sep a rest :
  has_char sep a = false → split sep (a +:+ String sep rest) = a :: split sep rest.
Proof.
  induction a as [|c a IH]; intros Ha.
  - change ("" +:+ String sep rest) with (String sep rest). simpl.
    by rewrite Ascii.eqb_refl.
  - simpl in Ha. apply orb_false_iff in Ha as [Hc Ha].
    rewrite str_app_cons. simpl. by rewrite Hc, (IH Ha).
Qed.

Lemma split_join sep f fields :
  Forall (λ p, has_char sep p = false) (f :: fields) →
  split sep (join (String sep "") (f :: fields)) = f :: fields.
Proof.
  revert f. induction fields as [|g fields IH]; intros f Hall.
  - apply Forall_cons in Hall as [Hf _]. by apply split_no_sep_id.
  - apply Forall_cons in Hall as [Hf Hall].
    change (join (String sep "") (f :: g :: fields))
      with (f +:+ String sep "" +:+ join (String sep "") (g :: fields)).
    change (String sep "" +:+ join (String sep "") (g :: fields))
      with (String sep (join (String sep "") (g :: fields))).
    by rewrite split_app, IH.
Qed.

Lemma nth_fmap_strip i (l : list string) :
  nth i (strip <$> l) "" = strip (nth i l "").
Proof.
  revert i. induction l as [|x l IH]; intros [|i]; simpl; try done.
Qed.

(** X11: a record written as fields joined by bars is read back field
    by field: the first four fields, each stripped; a field that is
    missing reads as the empty string and fields after the fourth are
    dropped. *)
Theorem parse_record_reads_joined_fields fields :
  Forall (λ f, has_char "|" f = false) fields →
  parse_record (join "|" fields)
  = (strip (nth 0 fields ""), strip (nth 1 fields ""),
     strip (nth 2 fields ""), strip (nth 3 fields "")).
Proof.
  intros Hall. rewrite parse_record_fields. unfold record_fields.
  destruct fields as [|f fields]; [done|].
  rewrite (split_join "|"%char f fields Hall).
  by rewrite !nth_fmap_strip.
Qed.

Lemma parse_record_reads_joined_fields_witness :
  parse_record (join "|" [" Mozilla Firefox "; "Mozilla.Firefox"; " 1.0"; "2.0 "; "extra"])
  = (strip " Mozilla Firefox ", strip "Mozilla.Firefox", strip " 1.0", strip "2.0 ").
Proof.
  apply (parse_record_reads_joined_fields
           [" Mozilla Firefox "; "Mozilla.Firefox"; " 1.0"; "2.0 "; "extra"]).
  repeat constructor.
Defined.

Lemma prefix_n_length n s : (String.length (prefix_n n s) ≤ n)%nat.
Proof.
  revert s. induction n as [|n IH]; intros [|c s]; simpl; try lia.
  specialize (IH s). lia.
Qed.

Lemma collect_statuses raws :
  statuses (collect raws).2 = prefix_n 140 <$> (collect raws).1
  ∧ (collect raws).1 = filter (λ l, l ≠ "") (rstrip_crlf <$> raws).
Proof.
  induction raws as [|raw raws [IH1 IH2]]; [done|].
  rewrite fmap_cons, filter_cons. cbn [collect].
  destruct (collect raws) as [ls fx]. simpl in IH1, IH2.
  destruct (is_empty (rstrip_crlf raw)) eqn:E.
  - apply is_empty_true in E. rewrite decide_False by (by intros ?). done.
  - apply is_empty_false in E. rewrite decide_True by done.
    cbn [fst snd].
    change (statuses (FxStatus (prefix_n 140 (rstrip_crlf raw)) :: fx))
      with (prefix_n 140 (rstrip_crlf raw) :: statuses fx).
    by rewrite IH1, IH2.
Qed.

(** X12: the status label is set once for every line of the stream that
    is not empty after its line end is removed, in stream order, to the
    first 140 characters of that line; empty lines are skipped and never
    reach the summary parser. *)
Theorem upgrade_status_per_line e proc :
  popen e (command e) = Some proc →
  statuses (worker e).1
  = prefix_n 140 <$> filter (λ l, l ≠ "") (rstrip_crlf <$> out_lines proc)
  ∧ Forall (λ t, (String.length t ≤ 140)%nat) (statuses (worker e).1)
  ∧ summary_of (out_lines proc)
    = parse_summary (filter (λ l, l ≠ "") (rstrip_crlf <$> out_lines proc)).
Proof.
  intros Hp. rewrite (proj2 (worker_launched e proc Hp)).
  destruct (collect_statuses (out_lines proc)) as [Hs Hc].
  rewrite Hs. unfold summary_of. rewrite Hc. repeat split.
  apply Forall_fmap, Forall_forall. intros l _. apply prefix_n_length.
Qed.

Lemma upgrade_status_per_line_witness :
  statuses (worker (Install.env_with Vectors.chatty_run)).1 = ["Checking"; "Done"].
Proof.
  exact (proj1 (upgrade_status_per_line (Install.env_with Vectors.chatty_run)
                  Vectors.chatty_run eq_refl)).
Defined.

End UpgradeMore.

(** ** Versions printed and read back *)
Section VersionRoundTrip.
Import Text Re Probe Trace.

Lemma all_digits_app a b : all_digits (a +:+ b) = all_digits a && all_digits b.
Proof.
  induction a as [|c a IH]; [done|].
  rewrite str_app_cons. simpl. by rewrite IH, andb_assoc.
Qed.

Lemma int_go_app a b : ∀ acc, int_go acc (a +:+ b) = int_go (int_go acc a) b.
Proof.
  induction a as [|c a IH]; intros acc; [done|].
  rewrite str_app_cons. simpl. apply IH.
Qed.

Lemma pretty_N_char_digit x :
  (x < 10)%N → isdigit (pretty_N_char x) = true ∧ digit_val (pretty_N_char x) = x.
Proof.
  intros Hx.
  assert (x = 0 ∨ x = 1 ∨ x = 2 ∨ x = 3 ∨ x = 4 ∨ x = 5 ∨ x = 6 ∨ x = 7 ∨ x = 8 ∨ x = 9)%N
    as Hc by lia.
  by repeat (destruct Hc as [->|Hc]); [..|subst x].
Qed.

(** The digits stdpp prints for [x] in front of [s]: they are digits and
    read back as [x]. *)
Lemma pretty_N_go_digits x : ∀ s,
  ∃ d m, pretty_N_go x s = d +:+ s ∧ all_digits d = true
         ∧ ((0 < x)%N → d ≠ "")
         ∧ ∀ acc, int_go acc d = (acc * m + x)%N.
Proof.
  induction (N.lt_wf_0 x) as [x _ IH]. intros s.
  destruct (decide (x = 0%N)) as [->|Hx].
  - exists "", 1%N. rewrite pretty_N_go_0. repeat split; [lia|]. intros acc. simpl. lia.
  - rewrite pretty_N_go_step by lia.
    destruct (IH (x `div` 10)%N ltac:(apply N.div_lt; lia)
                 (String (pretty_N_char (x `mod` 10)) s)) as (d & m & Hd & Had & _ & Hint).
    destruct (pretty_N_char_digit (x `mod` 10)) as [Hdig Hval];
      [apply N.mod_lt; lia|].
    exists (d +:+ String (pretty_N_char (x `mod` 10)) ""), (m * 10)%N.
    split; [by rewrite Hd, str_app_assoc|]. split; [|split].
    + rewrite all_digits_app, Had. simpl. by rewrite Hdig.
    + intros _. by destruct d.
    + intros acc. rewrite int_go_app, Hint. simpl. rewrite Hval.
      pose proof (N.div_mod x 10). lia.
Qed.

Lemma pretty_N_number (n : N) : number (pretty n) ∧ int_go 0%N (pretty n) = n.
Proof.
  unfold pretty, pretty_N. destruct (decide (n = 0%N)) as [->|Hn]; [done|].
  destruct (pretty_N_go_digits n "") as (d & m & Hd & Had & Hne & Hint).
  rewrite Hd, str_app_nil_r. unfold number.
  split; [split; [apply Hne; lia|done]|]. rewrite Hint. lia.
Qed.

Lemma str_length_app a b :
  String.length (a +:+ b) = (String.length a + String.length b)%nat.
Proof.
  induction a as [|c a IH]; [done|].
  rewrite str_app_cons. simpl. by rewrite IH.
Qed.

Lemma digit_val_lt c : (digit_val c < 10)%N.
Proof. by destruct c as [[] [] [] [] [] [] [] []]. Qed.

(** A run of [k] digits denotes a number below [10 ^ k]. *)
Lemma int_go_bound d : ∀ acc,
  (int_go acc d < (acc + 1) * 10 ^ N.of_nat (String.length d))%N.
Proof.
  induction d as [|c d IH]; intros acc.
  - simpl. lia.
  - cbn [int_go String.length]. rewrite Nat2N.inj_succ, N.pow_succ_r'.
    pose proof (IH (acc * 10 + digit_val c)%N) as Hlt.
    pose proof (digit_val_lt c) as Hc.
    pose proof (N.pow_nonzero 10 (N.of_nat (String.length d)) ltac:(lia)).
    nia.
Qed.

(** The digits stdpp prints for [x] begin with a digit other than zero:
    [k] of them print a number of at least [10 ^ (k - 1)]. *)
Lemma pretty_N_go_length x : ∀ s,
  ∃ d, pretty_N_go x s = d +:+ s
       ∧ (x = 0%N → d = "")
       ∧ ((0 < x)%N → (10 ^ N.of_nat (String.length d) ≤ 10 * x)%N).
Proof.
  induction (N.lt_wf_0 x) as [x _ IH]. intros s.
  destruct (decide (x = 0%N)) as [->|Hx].
  - exists "". rewrite pretty_N_go_0. split; [done|]. split; [done|lia].
  - rewrite pretty_N_go_step by lia.
    destruct (IH (x `div` 10)%N ltac:(apply N.div_lt; lia)
                 (String (pretty_N_char (x `mod` 10)) s)) as (d & Hd & Hzero & Hpos).
    exists (d +:+ String (pretty_N_char (x `mod` 10)) "").
    split; [by rewrite Hd, str_app_assoc|]. split; [done|]. intros _.
    rewrite str_length_app. cbn [String.length].
    replace (String.length d + 1)%nat with (S (String.length d)) by lia.
    rewrite Nat2N.inj_succ, N.pow_succ_r'.
    pose proof (N.div_mod x 10 ltac:(lia)) as Hdm.
    destruct (decide (x `div` 10 = 0)%N) as [Hq|Hq].
    + rewrite (Hzero Hq). simpl. lia.
    + apply N.neq_0_lt_0 in Hq. specialize (Hpos Hq).
      generalize dependent (10 ^ N.of_nat (String.length d))%N. intros P HP.
      generalize dependent (x `div` 10)%N. generalize dependent (x `mod` 10)%N.
      intros; lia.
Qed.

(** Printing the number a run of digits denotes gives no more digits
    than the run has: leading zeros are all that is lost. *)
Lemma pretty_int_go_length d :
  number d → (String.length (pretty (int_go 0%N d)) ≤ String.length d)%nat.
Proof.
  intros [Hne _]. pose proof (int_go_bound d 0%N) as Hlt.
  unfold pretty, pretty_N. destruct (decide (int_go 0%N d = 0%N)) as [Hz|Hn].
  - destruct d; [done|]. simpl. lia.
  - destruct (pretty_N_go_length (int_go 0%N d) "") as (p & -> & _ & Hpos).
    rewrite str_app_nil_r. specialize (Hpos ltac:(lia)).
    assert (10 ^ N.of_nat (String.length p) < 10 ^ N.succ (N.of_nat (String.length d)))%N
      as Hpow by (rewrite N.pow_succ_r'; lia).
    apply N.pow_lt_mono_r_iff in Hpow; lia.
Qed.

Lemma int_accepts_pretty d :
  number d → int_accepts d = true → int_accepts (pretty (int_go 0%N d)) = true.
Proof.
  unfold int_accepts. intros Hd Hacc%Nat.leb_le. apply Nat.leb_le.
  pose proof (pretty_int_go_length d Hd). lia.
Qed.

(** A number of at least [10 ^ k] is printed with more than [k] digits. *)
Lemma pretty_length_lower (n : N) (k : nat) :
  (10 ^ N.of_nat k ≤ n)%N → (k < String.length (pretty n))%nat.
Proof.
  intros Hle. destruct (pretty_N_number n) as [_ Hint].
  pose proof (int_go_bound (pretty n) 0%N) as Hlt. rewrite Hint in Hlt.
  assert (10 ^ N.of_nat k < 10 ^ N.of_nat (String.length (pretty n)))%N as Hpow by lia.
  apply N.pow_lt_mono_r_iff in Hpow; lia.
Qed.

Lemma int_refuses_pretty (n : N) :
  (10 ^ N.of_nat int_max_str_digits ≤ n)%N → int_accepts (pretty n) = false.
Proof.
  intros Hle. unfold int_accepts. apply Nat.leb_gt. by apply pretty_length_lower.
Qed.

Lemma search_version_numbers s d1 d2 d3 :
  search_version s = Some (d1, d2, d3) → number d1 ∧ number d2 ∧ number d3.
Proof.
  induction s as [|c s IH]; rewrite search_version_unfold.
  - destruct (version_at "") as [g|] eqn:E; [|done]. intros [= ->].
    by apply version_at_sound in E as (post & _ & ?).
  - destruct (version_at (String c s)) as [g|] eqn:E; [|exact IH]. intros [= ->].
    by apply version_at_sound in E as (post & _ & ?).
Qed.

(** What a parsed triple comes from. *)
Lemma parse_version_Some_inv text t :
  _parse_version text = Returned (Some t) →
  ∃ d1 d2 d3, search_version text = Some (d1, d2, d3)
    ∧ int_accepts d1 = true ∧ int_accepts d2 = true ∧ int_accepts d3 = true
    ∧ t = [int_go 0%N d1; int_go 0%N d2; int_go 0%N d3].
Proof.
  unfold _parse_version.
  destruct (search_version text) as [[[d1 d2] d3]|]; [|done].
  destruct (int_of_digits d1) as [a|] eqn:H1; [|done].
  destruct (int_of_digits d2) as [b|] eqn:H2; [|done].
  destruct (int_of_digits d3) as [c|] eqn:H3; [|done].
  apply int_of_digits_Some in H1 as [? ->], H2 as [? ->], H3 as [? ->].
  intros [= <-]. by exists d1, d2, d3.
Qed.

Lemma version_at_not_digit c r : isdigit c = false → version_at (String c r) = None.
Proof. intros Hc. unfold version_at. simpl. by rewrite Hc. Qed.

Lemma search_version_skip pre s :
  has_digit pre = false → search_version (pre +:+ s) = search_version s.
Proof.
  induction pre as [|c pre IH]; [done|].
  intros H. simpl in H. apply orb_false_iff in H as [Hc Hp].
  rewrite str_app_cons, search_version_unfold, (version_at_not_digit _ _ Hc).
  by apply IH.
Qed.

Lemma digit_run_not_started post :
  starts_with_digit post = false → (digit_run post).1 = "".
Proof. destruct post as [|c r]; [done|]. simpl. by intros ->. Qed.

Lemma search_version_printed (a b c : N) pre post :
  has_digit pre = false → starts_with_digit post = false →
  search_version (pre +:+ pretty a +:+ "." +:+ pretty b +:+ "." +:+ pretty c +:+ post)
  = Some (pretty a, pretty b, pretty c).
Proof.
  intros Hpre Hpost.
  rewrite (search_version_skip _ _ Hpre), search_version_unfold.
  destruct (pretty_N_number a) as [Ha _], (pretty_N_number b) as [Hb _],
    (pretty_N_number c) as [Hc _].
  rewrite (version_at_complete _ _ _ post Ha Hb Hc).
  by rewrite (digit_run_not_started _ Hpost), str_app_nil_r.
Qed.

(** Three numbers [int] converts, printed and joined by dots, are read
    back as they are. *)
Lemma parse_version_printed_accepted (a b c : N) pre post :
  has_digit pre = false → starts_with_digit post = false →
  int_accepts (pretty a) = true → int_accepts (pretty b) = true →
  int_accepts (pretty c) = true →
  _parse_version (pre +:+ pretty a +:+ "." +:+ pretty b +:+ "." +:+ pretty c +:+ post)
  = Returned (Some [a; b; c]).
Proof.
  intros Hpre Hpost Ha Hb Hc. unfold _parse_version.
  rewrite (search_version_printed a b c pre post Hpre Hpost).
  rewrite !int_of_digits_accepted by done.
  destruct (pretty_N_number a) as [_ ->], (pretty_N_number b) as [_ ->],
    (pretty_N_number c) as [_ ->]. done.
Qed.

(** X13: a version printed as three decimal numbers joined by dots, with
    text without digits before it and text that does not begin with a
    digit after it, is read back as the same three numbers when each is
    printed with at most [int_max_str_digits] digits; when one of them
    is longer the call raises [ValueError]. *)
Theorem parse_version_of_printed (a b c : N) pre post :
  has_digit pre = false → starts_with_digit post = false →
  _parse_version (pre +:+ pretty a +:+ "." +:+ pretty b +:+ "." +:+ pretty c +:+ post)
  = if int_accepts (pretty a) && int_accepts (pretty b) && int_accepts (pretty c)
    then Returned (Some [a; b; c]) else Raised ValueError.
Proof.
  intros Hpre Hpost.
  destruct (int_accepts (pretty a) && int_accepts (pretty b) && int_accepts (pretty c))
    eqn:Hacc.
  - apply andb_prop in Hacc as [[Ha Hb]%andb_prop Hc].
    by apply parse_version_printed_accepted.
  - apply parse_version_refused. unfold digits_accepted.
    by rewrite (search_version_printed a b c pre post Hpre Hpost).
Qed.

Lemma parse_version_of_printed_witness :
  _parse_version ("winget v" +:+ pretty 1%N +:+ "." +:+ pretty 20%N +:+ "."
                  +:+ pretty 3241%N +:+ "-preview")
  = Returned (Some [1; 20; 3241]%N)
  ∧ _parse_version ("v" +:+ pretty 1%N +:+ "." +:+ pretty 20%N +:+ "."
                    +:+ pretty (10 ^ 4300)%N +:+ "")
    = Raised ValueError.
Proof.
  split.
  - exact (parse_version_of_printed 1 20 3241 "winget v" "-preview" eq_refl eq_refl).
  - pose proof (parse_version_of_printed 1 20 (10 ^ 4300) "v" "" eq_refl eq_refl) as H.
    assert (int_accepts (pretty (10 ^ 4300)%N) = false) as Hc.
    { apply int_refuses_pretty. change (N.of_nat int_max_str_digits) with 4300%N.
      apply N.le_refl. }
    rewrite Hc in H. exact H.
Defined.

(** X14: what the probe reports hangs together.  MISSING never comes
    with a version string; OUTDATED always comes with one, in the form
    major.minor.patch without leading zeros, which reads back as a
    triple below the minimum; and a version string is never empty. *)
Theorem winget_state_version_consistent run st ver :
  get_winget_state run = Returned (st, ver) →
  (st = MISSING → ver = None)
  ∧ (st = OUTDATED →
     ∃ a b c, ver = Some (pretty a +:+ "." +:+ pretty b +:+ "." +:+ pretty c)
              ∧ _parse_version (pretty a +:+ "." +:+ pretty b +:+ "." +:+ pretty c)
                = Returned (Some [a; b; c])
              ∧ tuple_lt [a; b; c] MIN_WINGET_VERSION = true)
  ∧ ver ≠ Some "".
Proof.
  unfold get_winget_state. destruct run as [r|]; [|by intros [= <- <-]].
  destruct (negb (returncode r =? 0)%Z); [by intros [= <- <-]|].
  destruct (_parse_version (strip (stdout_text r +:+ err_text r))) as [[t|]|exc] eqn:Hp;
    [| |done].
  - destruct (parse_version_Some_inv _ _ Hp)
      as (d1 & d2 & d3 & Hs & Ha1 & Ha2 & Ha3 & ->).
    destruct (search_version_numbers _ _ _ _ Hs) as (Hn1 & Hn2 & Hn3).
    set (a := int_go 0%N d1). set (b := int_go 0%N d2). set (c := int_go 0%N d3).
    assert (join "." (pretty <$> [a; b; c])
            = pretty a +:+ "." +:+ pretty b +:+ "." +:+ pretty c) as Hj by done.
    rewrite Hj.
    assert (pretty a +:+ "." +:+ pretty b +:+ "." +:+ pretty c ≠ "") as Hne.
    { destruct (pretty_N_number a) as [[Ha _] _]. by destruct (pretty a). }
    assert (_parse_version (pretty a +:+ "." +:+ pretty b +:+ "." +:+ pretty c)
            = Returned (Some [a; b; c])) as Hrt.
    { pose proof (parse_version_printed_accepted a b c "" "" eq_refl eq_refl
                    (int_accepts_pretty d1 Hn1 Ha1) (int_accepts_pretty d2 Hn2 Ha2)
                    (int_accepts_pretty d3 Hn3 Ha3)) as Hsv.
      change ("" +:+ pretty a +:+ "." +:+ pretty b +:+ "." +:+ pretty c +:+ "")
        with (pretty a +:+ "." +:+ pretty b +:+ "." +:+ (pretty c +:+ "")) in Hsv.
      by rewrite str_app_nil_r in Hsv. }
    destruct (tuple_lt [a; b; c] MIN_WINGET_VERSION) eqn:Hlt; intros [= <- <-].
    + split; [done|]. split; [|by intros [=]]. intros _. by exists a, b, c.
    + split; [done|]. split; [done|by intros [=]].
  - intros [= <- <-]. split; [done|]. split; [done|].
    destruct (strip (stdout_text r +:+ err_text r)); [done|by intros [=]].
Qed.

Lemma winget_state_version_consistent_witness :
  ∃ a b c : N, Some "1.9.0" = Some (pretty a +:+ "." +:+ pretty b +:+ "." +:+ pretty c)
    ∧ _parse_version (pretty a +:+ "." +:+ pretty b +:+ "." +:+ pretty c)
      = Returned (Some [a; b; c])
    ∧ tuple_lt [a; b; c] MIN_WINGET_VERSION = true.
Proof.
  exact (proj1 (proj2 (winget_state_version_consistent (printed "v01.09.0 beta")
                         OUTDATED (Some "1.9.0") eq_refl)) eq_refl).
Defined.

End VersionRoundTrip.

(** ** The other dependency checks *)
Section DepsFacts.
Import Text TextMore Deps Probe.


Lemma contains_here sub post : contains sub (sub +:+ post) = true.
Proof. destruct sub, post; simpl; by rewrite ?strip_prefix_app, ?Ascii.eqb_refl. Qed.



(** X15: the App Installer version is either absent or a proper text:
    when the call gives a version, the query ran with exit code zero and
    the version is its stripped output, not empty and without blanks at
    its ends; it gives none exactly when the query could not run, exited
    with another code, or printed only blanks. *)
Theorem appinstaller_version_clean run :
  match get_appinstaller_version run with
  | Some v =>
      v ≠ "" ∧ strip v = v
      ∧ ∃ r, run appinstaller_command = Some r ∧ returncode r = 0%Z
             ∧ v = strip (stdout_text r)
  | None =>
      run appinstaller_command = None
      ∨ ∃ r, run appinstaller_command = Some r
             ∧ (returncode r ≠ 0%Z ∨ strip (stdout_text r) = "")
  end.
Proof.
  unfold get_appinstaller_version.
  destruct (run appinstaller_command) as [r|]; [|by left].
  destruct (Z.eqb_spec (returncode r) 0) as [Hz|Hz]; simpl; [|right; eauto].
  destruct (is_empty (strip (stdout_text r))) eqn:E.
  - apply is_empty_true in E. right. eauto.
  - apply is_empty_false in E. split; [done|]. split; [apply strip_idem|eauto].
Qed.

Lemma try_shells_none run cmds :
  Forall (λ cmd, accepts run cmd = false) cmds →
  try_shells run cmds = (shell_command <$> cmds, false).
Proof.
  induction 1 as [|cmd cmds Hc _ IH]; [done|]. simpl. by rewrite Hc, IH.
Qed.

(** X16: the shell probe stops at the first candidate that answers: the
    candidates before it were tried and refused, the ones after it are
    never started, and the answer is yes; when every candidate is
    refused, all were tried and the answer is no.  For the two
    candidates of the source, [pwsh] is started only after [powershell]
    was refused. *)
Theorem powershell_probe_stops_at_first run :
  (∀ pre cmd post,
     Forall (λ c, accepts run c = false) pre → accepts run cmd = true →
     try_shells run (pre ++ cmd :: post) = (shell_command <$> (pre ++ [cmd]), true))
  ∧ (∀ cmds, Forall (λ c, accepts run c = false) cmds →
       try_shells run cmds = (shell_command <$> cmds, false))
  ∧ is_powershell_available run
    = if accepts run "powershell" then ([shell_command "powershell"], true)
      else ([shell_command "powershell"; shell_command "pwsh"], accepts run "pwsh").
Proof.
  split; [|split; [apply try_shells_none|]].
  - intros pre cmd post Hpre Hcmd.
    induction Hpre as [|c pre Hc _ IH]; simpl; [by rewrite Hcmd|].
    by rewrite Hc, IH.
  - unfold is_powershell_available. simpl.
    destruct (accepts run "powershell"); [done|]. by destruct (accepts run "pwsh").
Qed.



(** X18: the two buttons follow the probes of winget and of the App
    Installer only.  Upgrade-all is enabled exactly when the winget
    state is OK; the fix button is disabled exactly when, besides, an
    App Installer version was read; so whenever upgrade-all is disabled
    the fix button is enabled, and a machine on which winget cannot be
    run gets the fix button and no upgrade-all, whatever the other
    probes say.  When the probe of winget raises, the worker raises the
    same exception and queues no call. *)
Theorem dependency_buttons run :
  match get_winget_state (run ["winget"; "--version"]) with
  | Returned (state, _) =>
      ∃ calls, _check_dependencies_worker run = Returned calls
        ∧ (SetUpgradeAll true ∈ calls ↔ state = OK)
        ∧ (SetFixButton false ∈ calls
           ↔ state = OK ∧ is_Some (get_appinstaller_version run))
        ∧ (SetUpgradeAll false ∈ calls → SetFixButton true ∈ calls)
        ∧ (run ["winget"; "--version"] = None →
             SetFixButton true ∈ calls ∧ SetUpgradeAll false ∈ calls)
  | Raised exc => _check_dependencies_worker run = Raised exc
  end.
Proof.
  unfold _check_dependencies_worker.
  destruct (get_winget_state (run ["winget"; "--version"])) as [[state ver]|exc] eqn:Hs;
    [|done].
  eexists. split; [reflexivity|].
  assert (run ["winget"; "--version"] = None → state = MISSING) as Hmiss.
  { intros Hn. rewrite Hn in Hs. by injection Hs as <- _. }
  clear Hs. generalize ((is_powershell_available run).2). intros ps.
  destruct (get_appinstaller_version run) as [v|]; cbn -[elem_of];
    rewrite !elem_of_cons, !elem_of_nil.
  - split; [|split; [|split]].
    + destruct state; simpl; intuition congruence.
    + destruct state; simpl; intuition (eauto; congruence).
    + destruct state; simpl; intuition congruence.
    + intros Hn. rewrite (Hmiss Hn). simpl. intuition congruence.
  - split; [|split; [|split]].
    + destruct state; simpl; intuition congruence.
    + destruct state; simpl; split; try (intuition congruence);
        intros [_ [? ?]]; done.
    + destruct state; simpl; intuition congruence.
    + intros Hn. rewrite (Hmiss Hn). simpl. intuition congruence.
Qed.

End DepsFacts.

(** ** The list of packages shown *)
Section CatalogFacts.
Import Text TextMore App.

Variable PACKAGES : list (string * WingetPackage).
Hypothesis distinct_keys : NoDup PACKAGES.*1.

Lemma lookup_Some_in l k p : lookup l k = Some p → (k, p) ∈ l.
Proof.
  induction l as [|[k' p'] l IH]; [done|]. simpl.
  destruct (String.eqb_spec k' k) as [->|Hne].
  - intros [= ->]. apply list_elem_of_here.
  - intros H. apply list_elem_of_further. by apply IH.
Qed.

Lemma lookup_in l k p : NoDup l.*1 → (k, p) ∈ l → lookup l k = Some p.
Proof.
  induction l as [|[k' p'] l IH]; [by intros _ ?%elem_of_nil|].
  rewrite fmap_cons. intros [Hk Hl]%NoDup_cons [[= -> ->]|Hin]%elem_of_cons; simpl.
  - by rewrite String.eqb_refl.
  - destruct (String.eqb_spec k' k) as [->|Hne]; [|by apply IH].
    exfalso. apply Hk. apply list_elem_of_fmap. by exists (k, p).
Qed.

Lemma lookup_is_Some l k : k ∈ l.*1 → is_Some (lookup l k).
Proof.
  induction l as [|[k' p'] l IH]; [by intros ?%elem_of_nil|]. simpl.
  destruct (String.eqb_spec k' k) as [->|Hne]; [eauto|].
  intros [?|?]%elem_of_cons; [done|by apply IH].
Qed.

Lemma filter_opt_total test keys :
  (∀ k, k ∈ keys → is_Some (test k)) →
  filter_opt test keys = Some (filter (λ k, test k = Some true) keys).
Proof.
  induction keys as [|k keys IH]; intros Hall; [done|]. simpl.
  destruct (Hall k) as [keep Hk]; [apply list_elem_of_here|].
  rewrite Hk, IH by (intros k' ?; by apply Hall, list_elem_of_further).
  rewrite filter_cons. destruct keep; [by rewrite decide_True|].
  rewrite decide_False; [done|]. rewrite Hk. by intros [=].
Qed.

Lemma map_opt_total {A} (f : string → option A) keys :
  (∀ k, k ∈ keys → is_Some (f k)) →
  ∃ l, map_opt f keys = Some l ∧ Forall2 (λ k a, f k = Some a) keys l.
Proof.
  induction keys as [|k keys IH]; intros Hall; [by exists []|]. simpl.
  destruct (Hall k) as [a Hk]; [apply list_elem_of_here|].
  destruct IH as (l & Hl & Hf); [intros k' ?; by apply Hall, list_elem_of_further|].
  exists (a :: l). rewrite Hk, Hl. split; [done|by constructor].
Qed.

Lemma insert_by_key_perm x l : insert_by_key x l ≡ₚ x :: l.
Proof.
  induction l as [|y l IH]; [done|]. simpl.
  destruct (String.leb x.1 y.1); [done|]. by rewrite IH, Permutation_swap.
Qed.

Lemma sort_by_key_perm l : sort_by_key l ≡ₚ l.
Proof.
  induction l as [|x l IH]; [done|]. unfold sort_by_key in *. simpl.
  by rewrite insert_by_key_perm, IH.
Qed.

Lemma insert_by_key_sorted x l : Sorted key_le l → Sorted key_le (insert_by_key x l).
Proof.
  induction 1 as [|y l Hl IH Hhd]; simpl; [by repeat constructor|].
  destruct (String.leb x.1 y.1) eqn:E.
  - constructor; [by constructor|]. by constructor.
  - constructor; [done|].
    assert (key_le y x) as Hyx.
    { unfold key_le. by destruct (String.leb_total x.1 y.1) as [H|H]; [rewrite H in E|]. }
    destruct Hhd as [|z l' Hyz]; simpl; [by constructor|].
    destruct (String.leb x.1 z.1); by constructor.
Qed.

Lemma sort_by_key_sorted l : Sorted key_le (sort_by_key l).
Proof.
  induction l as [|x l IH]; [constructor|]. by apply insert_by_key_sorted.
Qed.

Lemma get_in_keys k : k ∈ PACKAGES.*1 → is_Some (get PACKAGES k).
Proof. apply lookup_is_Some. Qed.

(** One of the two optional filters of [_filtered_keys]. *)
Lemma filter_stage (cond : bool) test keys0 :
  (∀ k, k ∈ keys0 → is_Some (test k)) →
  ∃ ks, (if cond then filter_opt test keys0 else Some keys0) = Some ks
        ∧ (NoDup keys0 → NoDup ks)
        ∧ ∀ k, k ∈ ks ↔ k ∈ keys0 ∧ (cond = false ∨ test k = Some true).
Proof.
  intros Hall. destruct cond.
  - exists (filter (λ k, test k = Some true) keys0).
    split; [by apply filter_opt_total|]. split; [apply NoDup_filter|].
    intros k. rewrite list_elem_of_filter. intuition congruence.
  - exists keys0. split; [done|]. split; [done|]. intros k. intuition.
Qed.

Lemma decorated_keys keys decorated :
  Forall2 (λ k a, sort_key PACKAGES k = Some a) keys decorated →
  decorated.*2 = keys
  ∧ Forall (λ a, ∃ p, (a.2, p) ∈ PACKAGES ∧ a.1 = lower (display_name p)) decorated.
Proof.
  induction 1 as [|k a keys decorated Hk _ [IH1 IH2]]; [done|].
  unfold sort_key, get in Hk.
  destruct (lookup PACKAGES k) as [p|] eqn:Hp; [|done]. injection Hk as <-.
  split; [by rewrite fmap_cons, IH1|].
  constructor; [|done]. exists p. split; [|done]. by apply lookup_Some_in.
Qed.

Lemma sorted_by_name (l : list (string * string)) :
  Sorted key_le l →
  Forall (λ a, ∃ p, (a.2, p) ∈ PACKAGES ∧ a.1 = lower (display_name p)) l →
  Sorted (λ k1 k2, ∃ p1 p2, (k1, p1) ∈ PACKAGES ∧ (k2, p2) ∈ PACKAGES
            ∧ String.leb (lower (display_name p1)) (lower (display_name p2)) = true)
         l.*2.
Proof.
  induction 1 as [|a l Hl IH Hhd]; intros Hall; [constructor|].
  apply Forall_cons in Hall as [(p & Hp & Ha) Hall].
  rewrite fmap_cons. constructor; [by apply IH|].
  destruct Hhd as [|b l' Hab]; [constructor|].
  apply Forall_cons in Hall as [(p' & Hp' & Hb) _].
  rewrite fmap_cons. constructor. exists p, p'.
  unfold key_le in Hab. by rewrite Ha, Hb in Hab.
Qed.

(** X19: the list shown never fails on a key and is exact.  For every
    table with distinct keys, [_filtered_keys] returns the keys of
    exactly those packages that are in the chosen category (every
    package when the category is empty or [Alle]) and whose name,
    description, id and category, put together in lower case, hold the
    stripped lower-case search text (every package when that is empty);
    each key once, ordered by lower-case display name. *)
Theorem filtered_keys_exact search cat :
  ∃ ks, _filtered_keys PACKAGES search cat = Some ks
    ∧ NoDup ks
    ∧ (∀ k, k ∈ ks ↔
         ∃ p, (k, p) ∈ PACKAGES
              ∧ (cat = "" ∨ cat = "Alle" ∨ category p = cat)
              ∧ (lower (strip search) = ""
                 ∨ contains (lower (strip search)) (hay p) = true))
    ∧ Sorted (λ k1 k2, ∃ p1 p2, (k1, p1) ∈ PACKAGES ∧ (k2, p2) ∈ PACKAGES
                ∧ String.leb (lower (display_name p1)) (lower (display_name p2)) = true)
             ks.
Proof.
  unfold _filtered_keys.
  destruct (filter_stage (negb (is_empty cat) && negb (String.eqb cat "Alle"))
              (in_category PACKAGES cat) PACKAGES.*1) as (keys1 & -> & Hnd1 & Hin1).
  { intros k Hk. unfold in_category. by destruct (get_in_keys k Hk) as [p ->]. }
  destruct (filter_stage (negb (is_empty (lower (strip search))))
              (matches PACKAGES (lower (strip search))) keys1) as (keys2 & -> & Hnd2 & Hin2).
  { intros k Hk. apply Hin1 in Hk as [Hk _]. unfold matches.
    by destruct (get_in_keys k Hk) as [p ->]. }
  destruct (map_opt_total (sort_key PACKAGES) keys2) as (decorated & Hdec & Hf2).
  { intros k Hk. apply Hin2 in Hk as [Hk _]. apply Hin1 in Hk as [Hk _]. unfold sort_key.
    by destruct (get_in_keys k Hk) as [p ->]. }
  destruct (decorated_keys _ _ Hf2) as [Hkeys Hall].
  unfold sorted_keys_for_render. rewrite Hdec.
  exists (sort_by_key decorated).*2.
  assert ((sort_by_key decorated).*2 ≡ₚ keys2) as Hperm.
  { by rewrite sort_by_key_perm, Hkeys. }
  split; [done|]. split; [|split].
  - rewrite Hperm. auto.
  - intros k. rewrite Hperm, Hin2, Hin1. split.
    + intros [[Hk Hc] Hq]. destruct (get_in_keys k Hk) as [p Hp].
      exists p. split; [by apply lookup_Some_in|]. split.
      * destruct Hc as [Hc|Hc].
        -- apply andb_false_iff in Hc as [Hc|Hc].
           ++ left. apply negb_false_iff, is_empty_true in Hc. done.
           ++ right; left. apply negb_false_iff in Hc. by apply String.eqb_eq.
        -- right; right. unfold in_category in Hc. rewrite Hp in Hc.
           injection Hc as Hc. by apply String.eqb_eq.
      * destruct Hq as [Hq|Hq].
        -- left. by apply negb_false_iff, is_empty_true in Hq.
        -- right. unfold matches in Hq. rewrite Hp in Hq. by injection Hq.
    + intros (p & Hp & Hc & Hq).
      assert (get PACKAGES k = Some p) as Hget by by apply lookup_in.
      split; [split|].
      * apply list_elem_of_fmap. by exists (k, p).
      * destruct Hc as [->|[->|Hc]]; [by left|by left|].
        destruct (negb (is_empty cat) && negb (String.eqb cat "Alle")); [|by left].
        right. unfold in_category. rewrite Hget. f_equal. by apply String.eqb_eq.
      * destruct Hq as [Hq|Hq].
        -- left. by rewrite Hq.
        -- destruct (negb (is_empty (lower (strip search)))); [|by left].
           right. unfold matches. by rewrite Hget, Hq.
  - apply sorted_by_name; [apply sort_by_key_sorted|].
    by rewrite sort_by_key_perm.
Qed.

End CatalogFacts.

Section CatalogWitness.
Import Text TextMore App.

Lemma filtered_keys_exact_witness :
  ∃ ks, _filtered_keys sample_catalog " PLAYER " "Media" = Some ks
    ∧ NoDup ks
    ∧ (∀ k, k ∈ ks ↔
         ∃ p, (k, p) ∈ sample_catalog
              ∧ ("Media" = "" ∨ "Media" = "Alle" ∨ category p = "Media")
              ∧ (lower (strip " PLAYER ") = ""
                 ∨ contains (lower (strip " PLAYER ")) (hay p) = true))
    ∧ Sorted (λ k1 k2, ∃ p1 p2, (k1, p1) ∈ sample_catalog ∧ (k2, p2) ∈ sample_catalog
                ∧ String.leb (lower (display_name p1)) (lower (display_name p2)) = true)
             ks.
Proof.
  apply (filtered_keys_exact sample_catalog).
  apply (bool_decide_unpack (NoDup sample_catalog.*1)). vm_compute. exact I.
Defined.

Example filtered_keys_sample :
  _filtered_keys sample_catalog " PLAYER " "Media" = Some ["mpc-hc"; "vlc"].
Proof. vm_compute. reflexivity. Qed.

End CatalogWitness.

(** ** The install worker, the keys and the row width *)
Section WorkerFacts.
Import Text TextMore App Trace.

Variable PACKAGES : list (string * WingetPackage).

Lemma install_ok_events_match e app_ids s f :
  (Install.run_winget_ps_install e app_ids true).2 = Returned (s, f) →
  ok_events (Install.run_winget_ps_install e app_ids true).1 = s.
Proof.
  intros Hrun.
  destruct app_ids as [|i ids]; [by injection Hrun as <- _|].
  destruct (ps1_exists e) eqn:Hex;
    [|by unfold Install.run_winget_ps_install in Hrun; rewrite Hex in Hrun].
  destruct (popen e (Install.command e (i :: ids))) as [proc|] eqn:Hp;
    [|by unfold Install.run_winget_ps_install in Hrun; rewrite Hex, Hp in Hrun].
  destruct (install_events_launched e (i :: ids) proc) as (_ & Ho & _); [done..|].
  rewrite (run_launched e (i :: ids) true proc) in Hrun by done.
  apply reconcile_returned in Hrun as [-> _]. by rewrite Ho.
Qed.

Lemma selected_in_vars (package_vars : list (string * bool)) k :
  k ∈ selected_keys package_vars → k ∈ package_vars.*1.
Proof.
  unfold selected_keys. intros ((k' & v) & -> & Hin)%list_elem_of_fmap.
  apply list_elem_of_filter in Hin as [_ Hin].
  apply list_elem_of_fmap. by exists (k', v).
Qed.

Lemma map_opt_length {A} (f : string → option A) keys l :
  map_opt f keys = Some l → length l = length keys.
Proof.
  revert l. induction keys as [|k keys IH]; intros l; simpl; [by intros [= <-]|].
  destruct (f k); [|done]. destruct (map_opt f keys) as [l'|]; [|done].
  intros [= <-]. simpl. by rewrite (IH l').
Qed.

Lemma install_worker_request e (package_vars : list (string * bool)) :
  package_vars.*1 = PACKAGES.*1 → selected_keys package_vars ≠ [] →
  ∃ app_ids,
    Forall2 (λ k i, ∃ p, get PACKAGES k = Some p ∧ i = id p)
            (selected_keys package_vars) app_ids
    ∧ length app_ids = selected_count package_vars
    ∧ selected_count package_vars ≠ 0%nat
    ∧ _install_worker PACKAGES e package_vars
      = (let '(fx, result) := Install.run_winget_ps_install e app_ids true in
         match result with
         | Raised exc => (fx, FinishError (Some exc))
         | Returned (installed_ids, failed_ids) =>
             if (0 <? length failed_ids)%nat
             then (fx, FinishSuccess (length installed_ids) (length failed_ids)
                         (length app_ids) (name_of PACKAGES <$> failed_ids))
             else (fx, FinishSuccess (length installed_ids) 0 (length app_ids) [])
         end).
Proof.
  intros Hvars Hsel.
  destruct (map_opt_total (λ k, id <$> get PACKAGES k) (selected_keys package_vars))
    as (app_ids & Hids & Hf2).
  { intros k Hk. apply selected_in_vars in Hk. rewrite Hvars in Hk. unfold get.
    by destruct (lookup_is_Some PACKAGES k Hk) as [p ->]. }
  exists app_ids. split.
  { eapply Forall2_impl; [exact Hf2|]. intros k i Hk. simpl in Hk.
    destruct (get PACKAGES k) as [p|]; [|done]. injection Hk as <-. eauto. }
  assert (length app_ids = selected_count package_vars) as Hlen.
  { rewrite (map_opt_length _ _ _ Hids). unfold selected_keys, selected_count.
    by rewrite length_fmap. }
  split; [done|]. split.
  { rewrite <-Hlen, (map_opt_length _ _ _ Hids). by destruct (selected_keys package_vars). }
  unfold _install_worker. apply nonempty_true in Hsel. by rewrite Hsel, Hids.
Qed.

(** X20: what the install worker reports.  When the check boxes belong
    to the table and at least one is ticked, the worker asks for the ids
    of the ticked packages, one per package and in table order, and an
    exception of the install call ends in the error report.  When the
    call returns, the worker reports as installed the length of the
    succeeded list, which is also the number of ok events it counted, as
    failed the length of the failed list, shown by display name, and as
    total the number of ticked boxes; the final status is the clean one
    exactly when the failed list is empty, also when fewer packages were
    installed than asked for. *)
Theorem install_worker_reports e (package_vars : list (string * bool)) :
  package_vars.*1 = PACKAGES.*1 → selected_keys package_vars ≠ [] →
  ∃ app_ids,
    Forall2 (λ k i, ∃ p, get PACKAGES k = Some p ∧ i = id p)
            (selected_keys package_vars) app_ids
    ∧ (_install_worker PACKAGES e package_vars).1
      = (Install.run_winget_ps_install e app_ids true).1
    ∧ match (Install.run_winget_ps_install e app_ids true).2 with
      | Raised exc => (_install_worker PACKAGES e package_vars).2 = FinishError (Some exc)
      | Returned (s, f) =>
          (_install_worker PACKAGES e package_vars).2
          = FinishSuccess (length s) (length f) (selected_count package_vars)
                          (name_of PACKAGES <$> f)
          ∧ done_after (_install_worker PACKAGES e package_vars).1 = length s
          ∧ _finish_success (length s) (length f) (selected_count package_vars)
            = if nonempty f
              then DonePartial (length s) (selected_count package_vars) (length f)
              else DoneAll (length s) (selected_count package_vars)
      end.
Proof.
  intros Hvars Hsel.
  destruct (install_worker_request e package_vars Hvars Hsel)
    as (app_ids & Hids & Hlen & Htot & ->).
  exists app_ids. split; [done|]. rewrite Hlen.
  pose proof (install_ok_events_match e app_ids) as Hev.
  destruct (Install.run_winget_ps_install e app_ids true) as [fx [[s f]|exc]];
    [|done].
  specialize (Hev s f eq_refl). simpl in Hev. subst s. unfold _finish_success.
  destruct (selected_count package_vars) as [|n]; [done|].
  destruct f as [|x f]; repeat split.
Qed.

Lemma land_4_testbit (state : Z) :
  (Z.land state 4 =? 0)%Z = negb (Z.testbit state 2).
Proof.
  assert (Z.land state 4 = if Z.testbit state 2 then 4 else 0)%Z as ->.
  { apply Z.bits_inj'. intros n Hn. rewrite Z.land_spec.
    change 4%Z with (2 ^ 2)%Z. rewrite Z.pow2_bits_eqb by lia.
    destruct (Z.eqb_spec 2 n) as [<-|Hne].
    - rewrite andb_true_r. destruct (Z.testbit state 2) eqn:E; [|done].
      by rewrite Z.pow2_bits_eqb.
    - rewrite andb_false_r. destruct (Z.testbit state 2); [|by rewrite Z.bits_0].
      rewrite Z.pow2_bits_eqb by lia. by apply Z.eqb_neq in Hne as ->. }
  by destruct (Z.testbit state 2).
Qed.

(** X21: which key does what.  A key press selects everything exactly
    when the Control bit (bit 2 of the state) is set and the key is the
    letter a in either case, and clears the selection exactly when the
    Control bit is set and the key is the letter d; any other state
    bits do not matter.  Enter starts the install click with or without
    Control. *)
Theorem key_press_decoded (state : Z) keysym :
  (_on_key_press state keysym = SelectAll
   ↔ Z.testbit state 2 = true ∧ lower keysym = "a")
  ∧ (_on_key_press state keysym = DeselectAll
     ↔ Z.testbit state 2 = true ∧ lower keysym = "d")
  ∧ (keysym = "Return" ∨ keysym = "KP_Enter" →
       _on_key_press state keysym = InstallClicked).
Proof.
  unfold _on_key_press. rewrite land_4_testbit, negb_involutive.
  destruct (Z.testbit state 2); simpl.
  - destruct (String.eqb_spec (lower keysym) "a") as [Ha|Ha].
    { split; [done|]. split; [split; [done|]; rewrite Ha; by intros [_ [=]]|].
      intros [->| ->]; done. }
    destruct (String.eqb_spec (lower keysym) "d") as [Hd|Hd].
    { split; [split; [done|by intros [_ ?]]|]. split; [done|].
      intros [->| ->]; done. }
    split; [|split].
    + split; [|by intros [_ ?]]. by repeat case_match.
    + split; [|by intros [_ ?]]. by repeat case_match.
    + by intros [->| ->].
  - split; [|split].
    + split; [|by intros [? _]]. by repeat case_match.
    + split; [|by intros [? _]]. by repeat case_match.
    + by intros [->| ->].
Qed.

Lemma set_all_true_selected (package_vars : list (string * bool)) :
  filter (λ kv, kv.2 = true) (set_all true package_vars) = set_all true package_vars.
Proof.
  induction package_vars as [|[k v] l IH]; [done|].
  unfold set_all in *. rewrite fmap_cons, filter_cons_True by done.
  by rewrite IH.
Qed.

Lemma set_all_false_selected (package_vars : list (string * bool)) :
  filter (λ kv, kv.2 = true) (set_all false package_vars) = [].
Proof.
  induction package_vars as [|[k v] l IH]; [done|].
  unfold set_all in *. by rewrite fmap_cons, filter_cons_False.
Qed.

Lemma set_all_true_keys (package_vars : list (string * bool)) :
  selected_keys (set_all true package_vars) = package_vars.*1
  ∧ (set_all true package_vars).*1 = package_vars.*1.
Proof.
  assert ((set_all true package_vars).*1 = package_vars.*1) as Hkeys.
  { unfold set_all. rewrite <-list_fmap_compose. by apply list_fmap_ext. }
  unfold selected_keys. by rewrite set_all_true_selected.
Qed.

(** X22: select all and clear all act on every check box, whatever the
    list currently shows.  After select all every key is selected, in
    table order, and the counter shows the number of packages; after
    clear all nothing is selected, so a following install click only
    shows the hint and starts no worker; and while an installation is
    running an install click is ignored. *)
Theorem select_all_and_clear_all (package_vars : list (string * bool)) :
  selected_keys (set_all true package_vars) = package_vars.*1
  ∧ selected_count (set_all true package_vars) = length package_vars
  ∧ (set_all true package_vars).*1 = package_vars.*1
  ∧ selected_keys (set_all false package_vars) = []
  ∧ selected_count (set_all false package_vars) = 0%nat
  ∧ _on_install_clicked false (set_all false package_vars) = ShowHint
  ∧ (package_vars ≠ [] →
     _on_install_clicked false (set_all true package_vars)
     = StartWorker (set_all true package_vars))
  ∧ _on_install_clicked true package_vars = Ignored.
Proof.
  assert ((set_all true package_vars).*1 = package_vars.*1) as Hkeys.
  { unfold set_all. rewrite <-list_fmap_compose. by apply list_fmap_ext. }
  unfold selected_keys, selected_count, _on_install_clicked, selected_keys.
  rewrite set_all_true_selected, set_all_false_selected, Hkeys.
  repeat split; try done.
  - unfold set_all. by rewrite length_fmap.
  - intros Hne. by destruct package_vars.
Qed.

(** X23: the row width is never degenerate.  It is the canvas width
    less 28 when the canvas is wider than 50 and 760 in every other
    case, so it is always at least 23, and the wrap length a row is
    given is never below 180. *)
Theorem row_width_bounds (canvas_width : option Z) :
  (23 ≤ _get_row_width canvas_width)%Z
  ∧ (∀ w, canvas_width = Some w → (50 < w)%Z → _get_row_width canvas_width = (w - 28)%Z)
  ∧ (∀ w, canvas_width = Some w → (w ≤ 50)%Z → _get_row_width canvas_width = 760%Z)
  ∧ (180 ≤ (set_width (_get_row_width canvas_width)).2)%Z
  ∧ (canvas_width = None → set_width (_get_row_width canvas_width) = (760, 700)%Z).
Proof.
  unfold _get_row_width, set_width, ROW_WIDTH.
  destruct canvas_width as [w|]; simpl; [|repeat split; try done; lia].
  destruct (Z.ltb_spec 50 w); repeat split; try done; try lia;
    intros w' [= <-] ?; lia.
Qed.

End WorkerFacts.

Section WorkerWitness.
Import Text TextMore App Trace.

Lemma install_worker_reports_witness :
  (_install_worker sample_catalog (Install.env_with Install.partial_run)
     [("vlc", true); ("7zip", false); ("firefox", true); ("mpc-hc", false)]).2
  = FinishSuccess 1 0 2 [].
Proof.
  destruct (install_worker_reports sample_catalog (Install.env_with Install.partial_run)
              [("vlc", true); ("7zip", false); ("firefox", true); ("mpc-hc", false)]
              eq_refl ltac:(discriminate)) as (app_ids & Hids & _ & Hrun).
  assert (app_ids = ["VideoLAN.VLC"; "Mozilla.Firefox"]) as ->.
  { repeat (apply Forall2_cons_inv_l in Hids as (? & ? & (? & [= <-] & ->) & Hids & ->)).
    by apply Forall2_nil_inv_l in Hids as ->. }
  exact (proj1 Hrun).
Defined.

Lemma powershell_probe_stops_at_first_witness :
  Deps.is_powershell_available Deps.only_pwsh
  = ([Deps.shell_command "powershell"; Deps.shell_command "pwsh"], true).
Proof.
  exact (proj2 (proj2 (powershell_probe_stops_at_first Deps.only_pwsh))).
Defined.

End WorkerWitness.

(** ** From the keyboard to the command line *)
Section SelectAllInstall.
Import Text TextMore App Trace.

Variable PACKAGES : list (string * WingetPackage).
Hypothesis distinct_keys : NoDup PACKAGES.*1.

Lemma ids_of_all_keys (entries : list (string * WingetPackage)) app_ids :
  (∀ k p, (k, p) ∈ entries → get PACKAGES k = Some p) →
  Forall2 (λ k i, ∃ p, get PACKAGES k = Some p ∧ i = id p) entries.*1 app_ids →
  app_ids = (λ e, id e.2) <$> entries.
Proof.
  revert app_ids. induction entries as [|[k p] entries IH]; intros app_ids Hget Hf2.
  - by apply Forall2_nil_inv_l in Hf2.
  - rewrite fmap_cons in Hf2.
    apply Forall2_cons_inv_l in Hf2 as (i & rest & (p' & Hp' & ->) & Hf2 & ->).
    simpl in Hp'. rewrite (Hget k p) in Hp' by apply list_elem_of_here.
    injection Hp' as <-.
    rewrite fmap_cons. f_equal. apply IH; [|done].
    intros k' q Hin. by apply Hget, list_elem_of_further.
Qed.

(** X24: from select all to the command line.  Starting from the check
    boxes as the window creates them (none ticked), select all followed
    by the install worker asks the install call for the id of every
    package of the table, each once and in table order, whatever the
    list currently shows; with nothing ticked, as at start, the worker
    ends at once with the empty report and starts nothing. *)
Theorem select_all_installs_whole_table e :
  PACKAGES ≠ [] →
  (_install_worker PACKAGES e (set_all true (initial_vars PACKAGES))).1
  = (Install.run_winget_ps_install e ((λ entry, id entry.2) <$> PACKAGES) true).1
  ∧ _install_worker PACKAGES e (initial_vars PACKAGES) = ([], FinishSuccess 0 0 0 []).
Proof.
  intros Hne.
  assert ((initial_vars PACKAGES).*1 = PACKAGES.*1) as Hinit.
  { unfold initial_vars. rewrite <-list_fmap_compose. by apply list_fmap_ext. }
  destruct (set_all_true_keys (initial_vars PACKAGES)) as (Hsel & Hkeys).
  destruct (install_worker_request PACKAGES e (set_all true (initial_vars PACKAGES)))
    as (app_ids & Hids & _ & _ & Hfx).
  { by rewrite Hkeys. }
  { rewrite Hsel, Hinit. by destruct PACKAGES. }
  rewrite Hsel, Hinit in Hids.
  apply ids_of_all_keys in Hids; [|intros k p Hin; by apply lookup_in].
  subst app_ids.
  assert (_install_worker PACKAGES e (initial_vars PACKAGES) = ([], FinishSuccess 0 0 0 []))
    as Hnone.
  { unfold _install_worker, selected_keys, initial_vars.
    assert (filter (λ kv : string * bool, kv.2 = true)
              ((λ entry : string * WingetPackage, (entry.1, false)) <$> PACKAGES) = [])
      as ->; [|done].
    clear. induction PACKAGES as [|x l IH]; [done|].
    by rewrite fmap_cons, filter_cons_False. }
  split; [|done]. rewrite Hfx.
  destruct (Install.run_winget_ps_install e _ true) as [fx [[s f]|exc]]; [|done].
  by destruct (0 <? length f)%nat.
Qed.

End SelectAllInstall.

Section SelectAllWitness.
Import Text TextMore App Trace.

Lemma select_all_installs_whole_table_witness :
  popen_calls (_install_worker sample_catalog (Install.env_with Install.partial_run)
             (set_all true (initial_vars sample_catalog))).1
  = [Install.command (Install.env_with Install.partial_run)
       ["VideoLAN.VLC"; "7zip.7zip"; "Mozilla.Firefox"; "clsid2.mpc-hc"]].
Proof.
  rewrite (proj1 (select_all_installs_whole_table sample_catalog
    ltac:(apply (bool_decide_unpack (NoDup sample_catalog.*1)); vm_compute; exact I)
    (Install.env_with Install.partial_run) ltac:(discriminate))).
  vm_compute. reflexivity.
Defined.

End SelectAllWitness.
